(** * face-ascii-app: the ASCII sampler/renderer and the frame loop throttle

    A shallow embedding of [src/utils/asciiRenderer.ts] ([renderASCII],
    [drawASCIIToCanvas], [getOptimalSettings]) and of
    [FaceTracker.processFrame] (the detection throttle, the ASCII branch
    and the render options it derives from the font metrics), followed by
    the properties of the specification that concern them and by further
    properties read off the code.

    Numbers.  JavaScript numbers are binary64 values.  They are modelled by
    module [Number]: a number is a rational, and every operation rounds the
    exact result to 53 significant bits, to nearest, ties to even, as
    IEEE 754 prescribes.  The exponent range is left unbounded: the values
    met here are 0 or lie between 2^-70 and 2^53, far from underflow and
    overflow.  The rounding of the brightness arithmetic decides the glyph
    of some blocks (lemma [rounding_decides_the_glyph]), so it is kept in the
    model of [renderASCII].

    Every quantity of the grid computation (canvas sizes, option fields,
    loop counters, pixel anchors) is an integer below 2^53, on which [*],
    [/] followed by [Math.floor], [Math.min] and [Math.max] are exact
    (lemmas [sampleSize_binary64] and [pixelAnchor_binary64]); these are
    computed on [Z] ([Z.div] is floor division, as [Math.floor (a / b)]).
    Division by zero, which yields [Infinity] or [NaN] in JavaScript, is
    written out where the source can meet it.

    Module [Binary64] evaluates the brightness expressions with the
    [spec_float] operations of the standard library; sample blocks are
    compared with the model at the end of the file. *)

From Stdlib Require Import ZArith QArith Qround Qpower Lqa Lia.
From Stdlib Require Import List String Ascii Bool Morphisms.
From Stdlib Require Import Strings.Byte.
From Stdlib Require Import Floats.SpecFloat.
Import ListNotations.

Local Open Scope Z_scope.

(** ** Completion of a call: a value, or a thrown DOM exception *)

Inductive DOMException : Type :=
| IndexSizeError.

Inductive completion (A : Type) : Type :=
| Normal (a : A)
| Throw (e : DOMException).

Arguments Normal {A} a.
Arguments Throw {A} e.

Definition bind {A B : Type} (c : completion A) (k : A -> completion B)
  : completion B :=
  match c with
  | Normal a => k a
  | Throw e => Throw e
  end.

Notation "'let*' x ':=' c 'in' k" := (bind c (fun x => k))
  (at level 61, x pattern, c at next level, right associativity).

(** [for (let i = start; i < start + n; i++) body], threading the variables
    the body assigns; an exception leaves the loop. *)
Fixpoint forLoop {S : Type} (n : nat) (i : Z)
  (body : Z -> S -> completion S) (s : S) : completion S :=
  match n with
  | O => Normal s
  | S n' => let* s' := body i s in forLoop n' (i + 1) body s'
  end.

(** ** Canvas and pixel data *)

(** One pixel of a [Uint8ClampedArray]: four octets R, G, B, A. *)
Record RGBA : Type := mkRGBA {
  red : byte;
  green : byte;
  blue : byte;
  alpha : byte
}.

Definition transparentBlack : RGBA := mkRGBA x00 x00 x00 x00.

(** The 2D context gives access to the canvas bitmap. *)
Record CanvasRenderingContext2D : Type := mkContext {
  bitmapWidth : Z;
  bitmapHeight : Z;
  bitmapPixel : Z -> Z -> RGBA
}.

(** [width] and [height] are [unsigned long] attributes.  [context2d] is
    [false] when [getContext('2d')] answers [null]. *)
Record HTMLCanvasElement : Type := mkCanvas {
  width : N;
  height : N;
  bitmap : Z -> Z -> RGBA;
  context2d : bool
}.

Definition getContext (canvas : HTMLCanvasElement)
  : option CanvasRenderingContext2D :=
  if context2d canvas
  then Some (mkContext (Z.of_N (width canvas)) (Z.of_N (height canvas))
               (bitmap canvas))
  else None.

Definition insideBitmap (ctx : CanvasRenderingContext2D) (x y : Z) : bool :=
  (0 <=? x) && (x <? bitmapWidth ctx) && (0 <=? y) && (y <? bitmapHeight ctx).

(** Pixels outside the bitmap read as transparent black. *)
Definition readPixel (ctx : CanvasRenderingContext2D) (x y : Z) : RGBA :=
  if insideBitmap ctx x y then bitmapPixel ctx x y else transparentBlack.

Definition range (n : Z) : list Z := map Z.of_nat (seq 0 (Z.to_nat n)).

(** The pixels of the rectangle with corner [(x0, y0)] and extents [w], [h],
    in row-major order. *)
Definition imageRect (ctx : CanvasRenderingContext2D) (x0 y0 w h : Z)
  : list RGBA :=
  flat_map (fun dy => map (fun dx => readPixel ctx (x0 + dx) (y0 + dy))
                        (range w))
           (range h).

(** [ctx.getImageData(sx, sy, sw, sh).data], one [RGBA] per four array
    entries.  A zero extent raises [IndexSizeError]; a negative extent
    designates the rectangle on the other side of the origin point. *)
Definition getImageData (ctx : CanvasRenderingContext2D) (sx sy sw sh : Z)
  : completion (list RGBA) :=
  if (sw =? 0) || (sh =? 0) then Throw IndexSizeError
  else
    let x0 := if sw <? 0 then sx + sw else sx in
    let y0 := if sh <? 0 then sy + sh else sy in
    Normal (imageRect ctx x0 y0 (Z.abs sw) (Z.abs sh)).

(** ** JavaScript numbers: rationals rounded to 53 significant bits *)

Module Number.

Definition precision : Z := 53.

(** floor(log2 x), for 0 < x. *)
Definition ilog2 (x : Q) : Z :=
  if Qle_bool 1 x then Z.log2 (Qfloor x)
  else - Z.log2_up (Qceiling (/ x)).

(** The nearest integer, the even one of two nearest. *)
Definition roundHalfEven (y : Q) : Z :=
  let f := Qfloor y in
  match (y - inject_Z f ?= 1 # 2)%Q with
  | Lt => f
  | Eq => if Z.even f then f else f + 1
  | Gt => f + 1
  end.

(** For 0 < x: the significand is the integer nearest to x / 2^e, where e
    places it between 2^52 and 2^53. *)
Definition roundPositive (x : Q) : Q :=
  let e := ilog2 x - (precision - 1) in
  (inject_Z (roundHalfEven (x / 2 ^ e)) * 2 ^ e)%Q.

Definition round (x : Q) : Q :=
  match (x ?= 0)%Q with
  | Eq => 0%Q
  | Gt => roundPositive x
  | Lt => (- roundPositive (- x))%Q
  end.

Definition add (x y : Q) : Q := round (x + y).
Definition mul (x y : Q) : Q := round (x * y).
Definition div (x y : Q) : Q := round (x / y).

End Number.

Notation "x [+] y" := (Number.add x y) (at level 50, left associativity).
Notation "x [*] y" := (Number.mul x y) (at level 40, left associativity).
Notation "x [/] y" := (Number.div x y) (at level 40, left associativity).

(** ** asciiRenderer.ts *)

Definition ASCII_CHARS : string := "@%#*+=-:. ".

Record ASCIIRenderOptions : Type := mkOptions {
  charWidth : option Z;
  charHeight : option Z;
  maxWidth : option Z;
  maxHeight : option Z
}.

Definition orDefault (o : option Z) (d : Z) : Z :=
  match o with
  | Some v => v
  | None => d
  end.

Definition channel (b : byte) : Q := inject_Z (Z.of_N (Byte.to_N b)).

(** The literals [0.299], [0.587] and [0.114]. *)
Definition weightRed : Q := Number.round (299 # 1000).
Definition weightGreen : Q := Number.round (587 # 1000).
Definition weightBlue : Q := Number.round (114 # 1000).

(** [(0.299 * r + 0.587 * g + 0.114 * b) * (a / 255)] *)
Definition luminance (p : RGBA) : Q :=
  (weightRed [*] channel (red p) [+] weightGreen [*] channel (green p)
   [+] weightBlue [*] channel (blue p))
  [*] (channel (alpha p) [/] 255%Q).

(** The loop [for (let i = 0; i < data.length; i += 4) brightness += ...]. *)
Definition accumulate (data : list RGBA) : Q :=
  fold_left (fun brightness p => brightness [+] luminance p) data 0%Q.

(** [brightness / (charWidth * charHeight * 255)] *)
Definition blockBrightness (data : list RGBA) (cw ch : Z) : Q :=
  accumulate data [/] (inject_Z cw [*] inject_Z ch [*] 255%Q).

Definition newline : ascii := "010"%char.

Definition rampLength : Z := Z.of_nat (String.length ASCII_CHARS).

(** [Math.floor(brightness * (ASCII_CHARS.length - 1))] *)
Definition charIndexOf (brightness : Q) : Z :=
  Qfloor (brightness [*] inject_Z (rampLength - 1)).

(** [s[i]]: [undefined] ([None]) outside the string. *)
Definition charAt (s : string) (i : Z) : option ascii :=
  if i <? 0 then None else String.get (Z.to_nat i) s.

(** [acc += s[i]]: appending [undefined] appends its string conversion. *)
Definition appendChar (acc : string) (c : option ascii) : string :=
  match c with
  | Some a => acc ++ String a EmptyString
  | None => acc ++ "undefined"
  end.

(** [Math.min(limit, Math.floor(extent / cell))].  With [cell = 0] the
    quotient is [Infinity] (the minimum is [limit]) or, for a zero extent,
    [NaN], against which every loop test fails like against 0. *)
Definition sampleSize (limit extent cell : Z) : Z :=
  if cell =? 0 then (if extent =? 0 then 0 else limit)
  else Z.min limit (extent / cell).

Definition sampleWidth (canvas : HTMLCanvasElement)
  (options : ASCIIRenderOptions) : Z :=
  sampleSize (orDefault (maxWidth options) 100) (Z.of_N (width canvas))
    (orDefault (charWidth options) 10).

Definition sampleHeight (canvas : HTMLCanvasElement)
  (options : ASCIIRenderOptions) : Z :=
  sampleSize (orDefault (maxHeight options) 60) (Z.of_N (height canvas))
    (orDefault (charHeight options) 14).

Definition pixelAnchor (i extent samples : Z) : Z := (i * extent) / samples.

(** The body of the inner loop: the glyph index of grid cell [(x, y)]. *)
Definition cellIndex (ctx : CanvasRenderingContext2D)
  (canvas : HTMLCanvasElement) (options : ASCIIRenderOptions) (x y : Z)
  : completion Z :=
  let cw := orDefault (charWidth options) 10 in
  let ch := orDefault (charHeight options) 14 in
  let pixelX :=
    pixelAnchor x (Z.of_N (width canvas)) (sampleWidth canvas options) in
  let pixelY :=
    pixelAnchor y (Z.of_N (height canvas)) (sampleHeight canvas options) in
  let* data := getImageData ctx pixelX pixelY cw ch in
  Normal (charIndexOf (blockBrightness data cw ch)).

Definition renderASCII (canvas : HTMLCanvasElement)
  (options : ASCIIRenderOptions) : completion string :=
  match getContext canvas with
  | None => Normal EmptyString
  | Some ctx =>
      forLoop (Z.to_nat (sampleHeight canvas options)) 0
        (fun y asciiArt =>
           let* asciiArt :=
             forLoop (Z.to_nat (sampleWidth canvas options)) 0
               (fun x asciiArt =>
                  let* charIndex := cellIndex ctx canvas options x y in
                  Normal (appendChar asciiArt (charAt ASCII_CHARS charIndex)))
               asciiArt in
           Normal (asciiArt ++ String newline EmptyString)%string)
        EmptyString
  end.

(** [getOptimalSettings]: [scale = Math.max(w, h) / 1000]. *)
Definition getOptimalSettings (canvasWidth canvasHeight : Z)
  : ASCIIRenderOptions :=
  let scale := inject_Z (Z.max canvasWidth canvasHeight) [/] 1000%Q in
  {| charWidth := Some (Z.max 8 (Qfloor (10%Q [*] scale)));
     charHeight := Some (Z.max 12 (Qfloor (14%Q [*] scale)));
     maxWidth := Some (canvasWidth / 12);
     maxHeight := Some (canvasHeight / 16) |}.

(** ** Notions used to state the properties *)

(** The [cw] by [ch] block of the bitmap whose top left pixel is
    [(px, py)], in row-major order. *)
Definition framePixels (canvas : HTMLCanvasElement) (px py cw ch : Z)
  : list RGBA :=
  flat_map (fun dy => map (fun dx => bitmap canvas (px + dx) (py + dy))
                        (range cw))
           (range ch).

(** The brightness of grid cell [(x, y)]: the luminance accumulated over its
    block of the frame, divided by [charWidth * charHeight * 255]. *)
Definition cellBrightness (canvas : HTMLCanvasElement)
  (options : ASCIIRenderOptions) (x y : Z) : Q :=
  let cw := orDefault (charWidth options) 10 in
  let ch := orDefault (charHeight options) 14 in
  let pixelX :=
    pixelAnchor x (Z.of_N (width canvas)) (sampleWidth canvas options) in
  let pixelY :=
    pixelAnchor y (Z.of_N (height canvas)) (sampleHeight canvas options) in
  blockBrightness (framePixels canvas pixelX pixelY cw ch) cw ch.

(** A bitmap that can exist: fewer than 2^45 pixels (at four octets each,
    2^47 octets).  Canvas implementations stop far below. *)
Definition storable (canvas : HTMLCanvasElement) : Prop :=
  Z.of_N (width canvas) * Z.of_N (height canvas) < 2 ^ 45.

(** The glyph of a cell, read off the ramp. *)
Definition cellGlyph (canvas : HTMLCanvasElement)
  (options : ASCIIRenderOptions) (x y : Z) : option ascii :=
  charAt ASCII_CHARS (charIndexOf (cellBrightness canvas options x y)).

Definition glyphOr (d : ascii) (o : option ascii) : ascii :=
  match o with
  | Some a => a
  | None => d
  end.

(** Row [y] of the grid as a string of one glyph per column. *)
Definition gridRow (canvas : HTMLCanvasElement)
  (options : ASCIIRenderOptions) (y : Z) : string :=
  string_of_list_ascii
    (map (fun x => glyphOr " "%char (cellGlyph canvas options x y))
       (range (sampleWidth canvas options))).

Definition gridRows (canvas : HTMLCanvasElement)
  (options : ASCIIRenderOptions) : list string :=
  map (gridRow canvas options) (range (sampleHeight canvas options)).

(** The pieces appended in order. *)
Definition joined (pieces : list string) : string :=
  fold_right append EmptyString pieces.

(** Every line followed by a newline. *)
Definition unlines (ls : list string) : string :=
  fold_right (fun l rest => (l ++ String newline rest)%string) EmptyString ls.

(** [s.split('\n')], as the callers of [renderASCII] take the block apart. *)
Fixpoint splitLines (s : string) : list string :=
  match s with
  | EmptyString => [EmptyString]
  | String c s' =>
      if Ascii.eqb c newline then EmptyString :: splitLines s'
      else
        match splitLines s' with
        | l :: ls => String c l :: ls
        | [] => [String c EmptyString]
        end
  end.

Fixpoint countChar (c : ascii) (s : string) : nat :=
  match s with
  | EmptyString => O
  | String a s' => (if Ascii.eqb a c then 1 else 0) + countChar c s'
  end.

Fixpoint lastChar (s : string) : option ascii :=
  match s with
  | EmptyString => None
  | String a EmptyString => Some a
  | String _ s' => lastChar s'
  end.

Definition repeatString (n : nat) (s : string) : string :=
  fold_right append EmptyString (repeat s n).

Definition uniformFrame (canvas : HTMLCanvasElement) (p : RGBA) : Prop :=
  forall x y,
    0 <= x < Z.of_N (width canvas) -> 0 <= y < Z.of_N (height canvas) ->
    bitmap canvas x y = p.

Definition opaqueBlack : RGBA := mkRGBA x00 x00 x00 xff.
Definition opaqueWhite : RGBA := mkRGBA xff xff xff xff.

(** Options whose four fields, after defaults, are positive integers. *)
Definition validOptions (options : ASCIIRenderOptions) : Prop :=
  0 < orDefault (charWidth options) 10 /\
  0 < orDefault (charHeight options) 14 /\
  0 < orDefault (maxWidth options) 100 /\
  0 < orDefault (maxHeight options) 60.

(** The grid size as section 4.1 of the specification words it: the minimum
    of the limit and the quotient, floored at 1. *)
Definition flooredGridSize (limit extent cell : Z) : Z :=
  Z.max 1 (Z.min limit (extent / cell)).

(** The grid of section 4.1 for a canvas and options. *)
Definition specCols (canvas : HTMLCanvasElement)
  (options : ASCIIRenderOptions) : Z :=
  flooredGridSize (orDefault (maxWidth options) 100) (Z.of_N (width canvas))
    (orDefault (charWidth options) 10).

Definition specRows (canvas : HTMLCanvasElement)
  (options : ASCIIRenderOptions) : Z :=
  flooredGridSize (orDefault (maxHeight options) 60) (Z.of_N (height canvas))
    (orDefault (charHeight options) 14).

Definition defaultOptions : ASCIIRenderOptions := mkOptions None None None None.

Definition solidCanvas (w h : N) (p : RGBA) : HTMLCanvasElement :=
  mkCanvas w h (fun _ _ => p) true.

(** A text of [rows] newline-terminated lines of [cols] characters each. *)
Definition rectangularBlock (text : string) (rows cols : Z) : Prop :=
  exists ls : list string,
    text = unlines ls /\
    Z.of_nat (List.length ls) = rows /\
    Forall (fun l => Z.of_nat (String.length l) = cols /\
                     countChar newline l = O) ls.

Definition rampGlyph (a : ascii) : Prop :=
  In a (list_ascii_of_string ASCII_CHARS).

(** [rows] lines of [cols] copies of the glyph [g]. *)
Definition solidBlock (g : ascii) (cols rows : Z) : string :=
  unlines (repeat (string_of_list_ascii (repeat g (Z.to_nat cols)))
             (Z.to_nat rows)).

Definition tinyCanvas : HTMLCanvasElement := solidCanvas 5 5 opaqueBlack.

Definition vgaOptions : ASCIIRenderOptions :=
  mkOptions (Some 10) (Some 14) (Some 64) (Some 34).

Definition lostContextCanvas : HTMLCanvasElement :=
  mkCanvas 640 480 (fun _ _ => opaqueWhite) false.

(** The brightness formula in exact rational arithmetic, for comparison. *)
Definition exactLuminance (p : RGBA) : Q :=
  (((299 # 1000) * channel (red p) + (587 # 1000) * channel (green p)
    + (114 # 1000) * channel (blue p)) * (channel (alpha p) / 255))%Q.

Definition exactBrightness (data : list RGBA) (cw ch : Z) : Q :=
  (fold_left (fun brightness p => brightness + exactLuminance p) data 0
   / inject_Z (cw * ch * 255))%Q.

Definition leafGreen : RGBA := mkRGBA x06 x8c x09 xff.

(** ** The brightness arithmetic in binary64 *)

Module Binary64.

Definition prec : Z := 53.
Definition emax : Z := 1024.

Definition ofZ (z : Z) : spec_float := binary_normalize prec emax z 0 false.
Definition mul : spec_float -> spec_float -> spec_float := SFmul prec emax.
Definition add : spec_float -> spec_float -> spec_float := SFadd prec emax.
Definition div : spec_float -> spec_float -> spec_float := SFdiv prec emax.

(** The decimal literal [n / d], rounded to the nearest binary64 value. *)
Definition decimal (n d : Z) : spec_float := div (ofZ n) (ofZ d).

(** [Math.floor], [None] on an infinity or NaN. *)
Definition floor (x : spec_float) : option Z :=
  match x with
  | S754_zero _ => Some 0
  | S754_finite s m e =>
      Some ((cond_Zopp s (Zpos m) * 2 ^ Z.max e 0) / 2 ^ Z.max (- e) 0)
  | S754_infinity _ | S754_nan => None
  end.

Definition channel (b : byte) : spec_float := ofZ (Z.of_N (Byte.to_N b)).

Definition luminance (p : RGBA) : spec_float :=
  mul (add (add (mul (decimal 299 1000) (channel (red p)))
              (mul (decimal 587 1000) (channel (green p))))
         (mul (decimal 114 1000) (channel (blue p))))
    (div (channel (alpha p)) (ofZ 255)).

Definition accumulate (data : list RGBA) : spec_float :=
  fold_left (fun brightness p => add brightness (luminance p)) data (ofZ 0).

Definition blockBrightness (data : list RGBA) (cw ch : Z) : spec_float :=
  div (accumulate data) (mul (mul (ofZ cw) (ofZ ch)) (ofZ 255)).

Definition charIndexOf (brightness : spec_float) : option Z :=
  floor (mul brightness (ofZ (rampLength - 1))).

(** The rational a finite value stands for. *)
Definition toQ (x : spec_float) : Q :=
  match x with
  | S754_finite s m e => (inject_Z (cond_Zopp s (Zpos m)) * 2 ^ e)%Q
  | S754_zero _ | S754_infinity _ | S754_nan => 0%Q
  end.

End Binary64.

Definition byteOf (n : Z) : byte :=
  match Byte.of_N (Z.to_N (n mod 256)) with
  | Some b => b
  | None => x00
  end.

(** A frame with a different colour and opacity at every pixel of a block. *)
Definition patternPixel (x y : Z) : RGBA :=
  mkRGBA (byteOf (x * 7 + y * 13)) (byteOf (x * 31 + y * 5 + 40))
    (byteOf (x * 3 + y * 17 + 90)) (byteOf (255 - (x * y) mod 64)).

Definition patternBlock : list RGBA :=
  imageRect (mkContext 10 14 patternPixel) 0 0 10 14.

Definition sampleBlocks : list (list RGBA) :=
  [repeat opaqueWhite 140; repeat leafGreen 140; patternBlock].

(** ** The frame loop of FaceTracker: detection throttle *)

Module FrameLoop.

(** The refs and the state the video branch of [processFrame] touches.
    [detectorCalls] counts the calls of [faceapi.detectAllFaces]. *)
Record LoopState : Type := mkLoop {
  frameCount : Z;
  faceDetection : bool;
  faceDetected : bool;
  detectorCalls : nat
}.

(** [detectionIntervalRef]: initialised to 10 and never assigned. *)
Definition detectionInterval : Z := 10.

Definition initial : LoopState := mkLoop 0 false false 0.

(** What one tick meets.  [surfacesReady] is false when one of the guards
    before the branch returns early (refs or contexts missing, video not
    ready, [drawImage] on the processing canvas throws); [detections] is
    the number of boxes the detector would answer, [None] when its promise
    rejects. *)
Record Tick : Type := mkTick {
  surfacesReady : bool;
  asciiBranch : bool;
  outputDrawn : bool;
  isLoading : bool;
  detections : option nat
}.

Definition processFrame (s : LoopState) (t : Tick) : LoopState :=
  if negb (surfacesReady t) then s
  else if asciiBranch t then s
  else if negb (outputDrawn t) then s
  else
    let count := frameCount s + 1 in
    if detectionInterval <=? count then
      if isLoading t then
        mkLoop 0 (faceDetection s) (faceDetected s) (detectorCalls s)
      else
        match detections t with
        | Some n =>
            mkLoop 0 (0 <? n)%nat (0 <? n)%nat (S (detectorCalls s))
        | None =>
            mkLoop 0 (faceDetection s) (faceDetected s)
              (S (detectorCalls s))
        end
    else if faceDetection s then
      mkLoop count (faceDetection s) true (detectorCalls s)
    else
      mkLoop count (faceDetection s) (faceDetected s) (detectorCalls s).

Definition run (s : LoopState) (ticks : list Tick) : LoopState :=
  fold_left processFrame ticks s.

(** A tick that reaches the throttle of the video branch. *)
Definition videoTick (t : Tick) : bool :=
  surfacesReady t && negb (asciiBranch t) && outputDrawn t.

Definition videoCount (ticks : list Tick) : nat :=
  List.length (filter videoTick ticks).

(** A video-branch tick with the models loaded and one face in view. *)
Definition faceTick : Tick := mkTick true false true false (Some 1%nat).

End FrameLoop.

(** ** Drawing the text block on a canvas *)

(** The calls a function makes on a 2D context, in order.  [SetFont px]
    stands for the assignment of [`${px}px 'Courier New', monospace`].
    Font sizes are the integers the slider of the application gives. *)
Inductive CanvasCall : Type :=
| SetFillStyle (style : string)
| FillRect (x y w h : Z)
| SetFont (px : Z)
| SetTextBaseline (baseline : string)
| FillText (text : string) (x y : Z).

(** [for (let i = start; i < lines.length; i++)
       ctx.fillText(lines[i], x, y0 + i * lineHeight)],
    [lines] being what is left from index [i] on. *)
Fixpoint fillLines (x y0 lineHeight i : Z) (lines : list string)
  : list CanvasCall :=
  match lines with
  | [] => []
  | l :: rest =>
      FillText l x (y0 + i * lineHeight)
      :: fillLines x y0 lineHeight (i + 1) rest
  end.

Definition orDefaultString (o : option string) (d : string) : string :=
  match o with
  | Some v => v
  | None => d
  end.

(** [drawASCIIToCanvas(asciiText, canvas, fontSize = 10,
    textColor = '#00ff00')]: the calls made on the context of [canvas]. *)
Definition drawASCIIToCanvas (asciiText : string) (canvas : HTMLCanvasElement)
  (fontSize : option Z) (textColor : option string) : list CanvasCall :=
  match getContext canvas with
  | None => []
  | Some _ =>
      let fontSize := orDefault fontSize 10 in
      let textColor := orDefaultString textColor "#00ff00" in
      let lines := splitLines asciiText in
      let lineHeight := fontSize + 2 in
      [ SetFillStyle "#000000";
        FillRect 0 0 (Z.of_N (width canvas)) (Z.of_N (height canvas));
        SetFillStyle textColor;
        SetFont fontSize;
        SetTextBaseline "top" ]
      ++ fillLines 10 10 lineHeight 0 lines
  end.

(** The texts drawn by a sequence of calls, with their positions. *)
Fixpoint textCalls (calls : list CanvasCall) : list (string * (Z * Z)) :=
  match calls with
  | [] => []
  | FillText text x y :: rest => (text, (x, y)) :: textCalls rest
  | _ :: rest => textCalls rest
  end.

(** ** FaceTracker: the ASCII branch of processFrame *)

Inductive ColorMode : Type :=
| Green
| White
| Cyan.

Definition colorMap (colorMode : ColorMode) : string :=
  match colorMode with
  | Green => "#00ff00"
  | White => "#ffffff"
  | Cyan => "#00ffff"
  end.

(** The branch [if (asciiMode && settings)], reached with both contexts at
    hand: the calls made on the context of the output canvas. *)
Definition asciiFrame (canvas outputCanvas : HTMLCanvasElement)
  (settings : ASCIIRenderOptions) (colorMode : ColorMode) (fontSize : Z)
  : completion (list CanvasCall) :=
  let* asciiArt := renderASCII canvas settings in
  let lines := splitLines asciiArt in
  let lineHeight := fontSize + 1 in
  Normal
    ([ SetFillStyle "#000000";
       FillRect 0 0 (Z.of_N (width outputCanvas))
         (Z.of_N (height outputCanvas));
       SetFillStyle (colorMap colorMode);
       SetFont fontSize;
       SetTextBaseline "top" ]
     ++ fillLines 8 8 lineHeight 0 lines).

(** The text calls for a rendered block: row [k] of the grid on line [k],
    then one empty piece. *)
Definition drawsGrid (drawn : list (string * (Z * Z)))
  (canvas : HTMLCanvasElement) (options : ASCIIRenderOptions)
  (x y0 lineHeight : Z) : Prop :=
  let rows := sampleHeight canvas options in
  List.length drawn = S (Z.to_nat rows) /\
  (forall k, 0 <= k < rows ->
     nth_error drawn (Z.to_nat k)
     = Some (gridRow canvas options k, (x, y0 + k * lineHeight))) /\
  nth_error drawn (Z.to_nat rows)
  = Some (EmptyString, (x, y0 + rows * lineHeight)).

(** ** FaceTracker: render options from the font metrics *)

(** [Number(fontSize) || 10] *)
Definition safeFontSize (fontSize : Z) : Z :=
  if fontSize =? 0 then 10 else fontSize.

(** [Math.round]: the nearest integer, halves upwards. *)
Definition mathRound (q : Q) : Z := Qfloor (q + (1 # 2)).

(** The options the later [processFrame] passes to [renderASCII]:
    [actualCharWidth] is the measured width of ['M'] in the output font.
    [None] stands for the results that are not finite (a zero glyph width
    or line height makes [cols] or [rows] [Infinity] or [NaN]), which
    [ASCIIRenderOptions] cannot hold here. *)
Definition metricOptions (canvas outputCanvas : HTMLCanvasElement)
  (fontSize : Z) (actualCharWidth : Q) : option ASCIIRenderOptions :=
  let lineHeight := safeFontSize fontSize + 1 in
  let padding := 8 in
  if Qeq_bool actualCharWidth 0 || (lineHeight =? 0) then None
  else
    let cols :=
      Z.max 1 (Qfloor (inject_Z (Z.of_N (width outputCanvas) - padding * 2)
                       [/] actualCharWidth)) in
    let rows :=
      Z.max 1 (Qfloor (inject_Z (Z.of_N (height outputCanvas) - padding * 2)
                       [/] inject_Z lineHeight)) in
    Some {| charWidth :=
              Some (Z.max 1 (mathRound (inject_Z (Z.of_N (width canvas))
                                        [/] inject_Z cols)));
            charHeight :=
              Some (Z.max 1 (mathRound (inject_Z (Z.of_N (height canvas))
                                        [/] inject_Z rows)));
            maxWidth := Some cols;
            maxHeight := Some rows |}.

(** The ASCII branch of the later [processFrame]: the font is set and
    ['M'] measured, the block rendered with [metricOptions], then drawn
    with the line height and padding the grid was computed from. *)
Definition metricFrame (canvas outputCanvas : HTMLCanvasElement)
  (colorMode : ColorMode) (fontSize : Z) (actualCharWidth : Q)
  : option (completion (list CanvasCall)) :=
  let lineHeight := safeFontSize fontSize + 1 in
  let padding := 8 in
  match metricOptions canvas outputCanvas fontSize actualCharWidth with
  | None => None
  | Some options =>
      Some
        (let* asciiArt := renderASCII canvas options in
         let lines := splitLines asciiArt in
         Normal
           ([ SetFont (safeFontSize fontSize);
              SetFillStyle "#000000";
              FillRect 0 0 (Z.of_N (width outputCanvas))
                (Z.of_N (height outputCanvas));
              SetFillStyle (colorMap colorMode);
              SetTextBaseline "top" ]
            ++ fillLines padding padding lineHeight 0 lines))
  end.

(** ** FaceTracker: does a call of processFrame schedule the next one? *)

(** What one call of [processFrame] meets on its way to the branch:
    the [enabled] prop; whether the three refs are set; whether the video
    has enough data; whether the two [drawImage] calls succeed. *)
Record FrameGuards : Type := mkGuards {
  enabled : bool;
  refsMounted : bool;
  haveEnoughData : bool;
  frameDrawn : bool;
  outputFrameDrawn : bool
}.

(** Whether the call ends by [requestAnimationFrame(processFrame)].
    [settings] is the memoized value ([null] is [None]).  An exception of
    [renderASCII] escapes the function before its last line; the errors of
    the detection are caught inside the video branch. *)
Definition schedulesNext (g : FrameGuards)
  (canvas outputCanvas : HTMLCanvasElement) (asciiMode : bool)
  (settings : option ASCIIRenderOptions) (colorMode : ColorMode)
  (fontSize : Z) : bool :=
  if negb (enabled g) || negb (refsMounted g) then enabled g
  else if negb (context2d canvas) || negb (context2d outputCanvas) then true
  else if negb (haveEnoughData g) then true
  else if negb (frameDrawn g) then true
  else
    match asciiMode, settings with
    | true, Some settings =>
        match asciiFrame canvas outputCanvas settings colorMode fontSize with
        | Normal _ => true
        | Throw _ => false
        end
    | _, _ => if negb (outputFrameDrawn g) then true else true
    end.

(** ** Further notions *)

(** Pixel [(u, v)] belongs to the block sampled for grid cell [(x, y)]. *)
Definition inBlock (canvas : HTMLCanvasElement)
  (options : ASCIIRenderOptions) (x y u v : Z) : Prop :=
  let pixelX :=
    pixelAnchor x (Z.of_N (width canvas)) (sampleWidth canvas options) in
  let pixelY :=
    pixelAnchor y (Z.of_N (height canvas)) (sampleHeight canvas options) in
  pixelX <= u < pixelX + orDefault (charWidth options) 10 /\
  pixelY <= v < pixelY + orDefault (charHeight options) 14.

(** [p] is at most [q] in each of the four octets. *)
Definition dimmer (p q : RGBA) : Prop :=
  (Byte.to_N (red p) <= Byte.to_N (red q))%N /\
  (Byte.to_N (green p) <= Byte.to_N (green q))%N /\
  (Byte.to_N (blue p) <= Byte.to_N (blue q))%N /\
  (Byte.to_N (alpha p) <= Byte.to_N (alpha q))%N.

(** A frame whose colour changes from pixel to pixel, for the examples. *)
Definition gradientCanvas (w h : N) : HTMLCanvasElement :=
  mkCanvas w h
    (fun x y => mkRGBA (byteOf x) (byteOf y) (byteOf (x + y)) xff) true.
(** ** Grid arithmetic *)

Lemma sampleSize_cell_pos (limit extent cell : Z) :
  0 < cell -> sampleSize limit extent cell = Z.min limit (extent / cell).
Proof.
  intros Hc. unfold sampleSize.
  destruct (cell =? 0) eqn:E; [apply Z.eqb_eq in E; lia | reflexivity].
Qed.

Lemma sampleSize_fits (limit extent cell : Z) :
  0 < cell -> sampleSize limit extent cell * cell <= extent.
Proof.
  intros Hc. rewrite sampleSize_cell_pos by assumption.
  pose proof (Z.mul_div_le extent cell Hc) as Hd.
  nia.
Qed.

Lemma sampleSize_nonneg (limit extent cell : Z) :
  0 < cell -> 0 <= extent -> 0 <= limit ->
  0 <= sampleSize limit extent cell.
Proof.
  intros Hc He Hl. rewrite sampleSize_cell_pos by assumption.
  pose proof (Z.div_pos extent cell He Hc). lia.
Qed.

Lemma sampleSize_ge_1 (limit extent cell : Z) :
  0 < cell ->
  (1 <= sampleSize limit extent cell <-> 1 <= limit /\ cell <= extent).
Proof.
  intros Hc. rewrite sampleSize_cell_pos by assumption.
  split.
  - intros H. split; [lia|].
    assert (1 <= extent / cell) as Hq by lia.
    pose proof (Z.mul_div_le extent cell Hc). nia.
  - intros [Hl He].
    assert (1 <= extent / cell).
    { apply Z.div_le_lower_bound; lia. }
    lia.
Qed.

(** The sampled block of a grid cell lies inside the frame. *)
Lemma pixelAnchor_block_inside (limit extent cell i : Z) :
  0 < cell -> 0 <= extent ->
  0 <= i < sampleSize limit extent cell ->
  0 <= pixelAnchor i extent (sampleSize limit extent cell) /\
  pixelAnchor i extent (sampleSize limit extent cell) + cell <= extent.
Proof.
  intros Hc He Hi.
  pose proof (sampleSize_fits limit extent cell Hc) as Hfit.
  set (n := sampleSize limit extent cell) in *.
  unfold pixelAnchor. split.
  - apply Z.div_pos; nia.
  - assert ((i * extent) / n <= ((extent - cell) * n) / n) as Hle.
    { apply Z.div_le_mono; nia. }
    rewrite Z.div_mul in Hle by lia. lia.
Qed.

(** ** Strings *)

Lemma append_assoc (a b c : string) :
  ((a ++ b) ++ c = a ++ (b ++ c))%string.
Proof. induction a as [|x a IH]; simpl; [reflexivity | now rewrite IH]. Qed.

Lemma append_empty_r (a : string) : (a ++ EmptyString)%string = a.
Proof. induction a as [|x a IH]; simpl; [reflexivity | now rewrite IH]. Qed.

Lemma length_append (a b : string) :
  String.length (a ++ b) = (String.length a + String.length b)%nat.
Proof. induction a as [|x a IH]; simpl; [reflexivity | now rewrite IH]. Qed.

Lemma length_string_of_list_ascii (l : list ascii) :
  String.length (string_of_list_ascii l) = List.length l.
Proof. induction l as [|x l IH]; simpl; [reflexivity | now rewrite IH]. Qed.

Lemma string_of_list_ascii_app (l1 l2 : list ascii) :
  string_of_list_ascii (l1 ++ l2)
  = (string_of_list_ascii l1 ++ string_of_list_ascii l2)%string.
Proof. induction l1 as [|x l1 IH]; simpl; [reflexivity | now rewrite IH]. Qed.

Lemma countChar_append (c : ascii) (a b : string) :
  countChar c (a ++ b) = (countChar c a + countChar c b)%nat.
Proof.
  induction a as [|x a IH]; simpl; [reflexivity|].
  rewrite IH. lia.
Qed.

Lemma countChar_string_of_list_ascii (c : ascii) (l : list ascii) :
  Forall (fun a => a <> c) l -> countChar c (string_of_list_ascii l) = O.
Proof.
  induction 1 as [|a l Ha _ IH]; simpl; [reflexivity|].
  rewrite IH. destruct (Ascii.eqb_spec a c); [contradiction | reflexivity].
Qed.

Lemma splitLines_line (l rest : string) :
  countChar newline l = O ->
  splitLines (l ++ String newline rest) = l :: splitLines rest.
Proof.
  induction l as [|a l IH]; simpl; intros Hc.
  - reflexivity.
  - destruct (Ascii.eqb a newline); [discriminate|].
    simpl in Hc. now rewrite IH.
Qed.

Lemma splitLines_unlines (ls : list string) :
  Forall (fun l => countChar newline l = O) ls ->
  splitLines (unlines ls) = ls ++ [EmptyString].
Proof.
  induction 1 as [|l ls Hl _ IH]; simpl; [reflexivity|].
  now rewrite splitLines_line, IH.
Qed.

Lemma length_unlines (ls : list string) (n : nat) :
  Forall (fun l => String.length l = n) ls ->
  String.length (unlines ls) = (List.length ls * (n + 1))%nat.
Proof.
  induction 1 as [|l ls Hl _ IH]; simpl; [reflexivity|].
  rewrite length_append. simpl. rewrite IH, Hl. lia.
Qed.

Lemma countChar_unlines (ls : list string) :
  Forall (fun l => countChar newline l = O) ls ->
  countChar newline (unlines ls) = List.length ls.
Proof.
  induction 1 as [|l ls Hl _ IH]; simpl; [reflexivity|].
  rewrite countChar_append. simpl. rewrite IH, Hl. reflexivity.
Qed.

Lemma lastChar_append_cons (a : string) (c : ascii) (b : string) :
  lastChar (a ++ String c b) = lastChar (String c b).
Proof.
  induction a as [|x a IH]; [reflexivity|].
  change (lastChar (String x (a ++ String c b)) = lastChar (String c b)).
  destruct (a ++ String c b)%string as [|a0 s] eqn:E.
  - destruct a; discriminate.
  - change (lastChar (String a0 s) = lastChar (String c b)).
    exact IH.
Qed.

Lemma lastChar_unlines (ls : list string) :
  ls <> [] -> lastChar (unlines ls) = Some newline.
Proof.
  induction ls as [|l ls IH]; [congruence|]. intros _.
  simpl. rewrite lastChar_append_cons.
  destruct ls as [|l' ls'].
  - reflexivity.
  - assert (l' :: ls' <> []) as Hne by congruence.
    specialize (IH Hne).
    destruct (unlines (l' :: ls')) eqn:E; [discriminate IH|].
    exact IH.
Qed.

Lemma unlines_repeat (l : string) (n : nat) :
  unlines (repeat l n) = repeatString n (l ++ String newline EmptyString).
Proof.
  unfold repeatString.
  induction n as [|n IH]; simpl; [reflexivity|].
  rewrite IH, append_assoc. reflexivity.
Qed.

(** ** Rounding: order and exact cases *)

Lemma pow2_pos (e : Z) : (0 < 2 ^ e)%Q.
Proof. apply Qpower_0_lt. reflexivity. Qed.

Lemma pow2_inject (n : Z) : 0 <= n -> (inject_Z (2 ^ n) == 2 ^ n)%Q.
Proof. intros Hn. now rewrite Zpower_Qpower. Qed.

Lemma pow2_add (a b : Z) : (2 ^ (a + b) == 2 ^ a * 2 ^ b)%Q.
Proof. apply Qpower_plus. discriminate. Qed.

Lemma pow2_lt (a b : Z) : a < b -> (2 ^ a < 2 ^ b)%Q.
Proof. intros H. apply Qpower_lt_compat_l; [exact H | reflexivity]. Qed.

Lemma pow2_le (a b : Z) : a <= b -> (2 ^ a <= 2 ^ b)%Q.
Proof. intros H. apply Qpower_le_compat_l; [exact H | discriminate]. Qed.

Lemma pow2_lt_inv (a b : Z) : (2 ^ a < 2 ^ b)%Q -> a < b.
Proof. intros H. apply (Qpower_lt_compat_l_inv 2); [exact H | reflexivity]. Qed.

Lemma pow2_cancel (e : Z) : (2 ^ e * 2 ^ (- e) == 1)%Q.
Proof. rewrite <- pow2_add. now replace (e + - e) with 0 by lia. Qed.

Lemma ilog2_spec (x : Q) :
  (0 < x)%Q ->
  (2 ^ Number.ilog2 x <= x /\ x < 2 ^ (Number.ilog2 x + 1))%Q.
Proof.
  intros Hx. unfold Number.ilog2.
  destruct (Qle_bool 1 x) eqn:E.
  - apply Qle_bool_iff in E.
    assert (1 <= Qfloor x) as Hf.
    { change 1 with (Qfloor 1%Q). now apply Qfloor_resp_le. }
    destruct (Z.log2_spec (Qfloor x)) as [Hlo Hhi]; [lia|].
    pose proof (Z.log2_nonneg (Qfloor x)) as Hl.
    split.
    + rewrite <- pow2_inject by exact Hl.
      apply Qle_trans with (inject_Z (Qfloor x)); [|apply Qfloor_le].
      now rewrite <- Zle_Qle.
    + rewrite <- pow2_inject by lia.
      apply Qlt_le_trans with (inject_Z (Qfloor x + 1)); [apply Qlt_floor|].
      rewrite <- Zle_Qle. lia.
  - assert (x < 1)%Q as Hx1.
    { apply Qnot_le_lt. intros H. apply Qle_bool_iff in H. congruence. }
    assert (~ x == 0)%Q as Hnz by (intros H; rewrite H in Hx; discriminate).
    pose proof (Qmult_inv_r x Hnz) as Hinv.
    pose proof (Qinv_lt_0_compat x Hx) as Hy.
    set (y := (/ x)%Q) in *.
    assert (1 < y)%Q as Hy1 by nra.
    pose proof (Qle_ceiling y) as Hc.
    pose proof (Qceiling_lt y) as Hc'.
    set (c := Qceiling y) in *.
    assert (1 < c) as Hc1.
    { rewrite Zlt_Qlt. apply Qlt_le_trans with y; assumption. }
    destruct (Z.log2_up_spec c Hc1) as [Hlo Hhi].
    set (j := Z.log2_up c) in *.
    assert (1 <= j) as Hj.
    { destruct (Z.le_gt_cases 1 j) as [|Hj0]; [assumption|].
      assert (j <= 0) as Hj0' by lia.
      pose proof (Z.pow_le_mono_r 2 j 0 ltac:(lia) Hj0'). simpl in *. lia. }
    assert (y <= 2 ^ j)%Q as Hyj.
    { apply Qle_trans with (inject_Z c); [exact Hc|].
      rewrite <- pow2_inject by lia. now rewrite <- Zle_Qle. }
    assert (2 ^ (j - 1) < y)%Q as Hjy.
    { apply Qle_lt_trans with (inject_Z (c - 1)); [|exact Hc'].
      rewrite <- pow2_inject by lia. rewrite <- Zle_Qle.
      replace (j - 1) with (Z.pred j) by lia. lia. }
    pose proof (pow2_cancel j) as Hcan.
    pose proof (pow2_cancel (j - 1)) as Hcan'.
    replace (- (j - 1)) with (- j + 1) in Hcan' by lia.
    pose proof (pow2_pos j). pose proof (pow2_pos (- j)).
    pose proof (pow2_pos (j - 1)). pose proof (pow2_pos (- j + 1)).
    set (P := (2 ^ j)%Q) in *. set (Pm := (2 ^ (- j))%Q) in *.
    set (R := (2 ^ (j - 1))%Q) in *. set (Rm := (2 ^ (- j + 1))%Q) in *.
    split.
    + apply Qnot_lt_le. intros Hlt.
      assert (x * P < Pm * P)%Q by (apply Qmult_lt_compat_r; assumption).
      assert (x * y <= x * P)%Q by (apply Qmult_le_l; assumption).
      nra.
    + apply Qnot_le_lt. intros Hle.
      assert (Rm * R <= x * R)%Q by (apply Qmult_le_compat_r; [assumption | now apply Qlt_le_weak]).
      assert (x * R < x * y)%Q by (apply Qmult_lt_l; assumption).
      nra.
Qed.

Lemma ilog2_unique (x : Q) (k : Z) :
  (2 ^ k <= x)%Q -> (x < 2 ^ (k + 1))%Q -> Number.ilog2 x = k.
Proof.
  intros Hlo Hhi.
  assert (0 < x)%Q as Hx by (apply Qlt_le_trans with (2 ^ k)%Q; [apply pow2_pos | exact Hlo]).
  destruct (ilog2_spec x Hx) as [Hlo' Hhi'].
  assert (Number.ilog2 x < k + 1).
  { apply pow2_lt_inv. apply Qle_lt_trans with x; assumption. }
  assert (k < Number.ilog2 x + 1).
  { apply pow2_lt_inv. apply Qle_lt_trans with x; assumption. }
  lia.
Qed.

Lemma ilog2_comp (x y : Q) :
  (0 < x)%Q -> (x == y)%Q -> Number.ilog2 x = Number.ilog2 y.
Proof.
  intros Hx Hxy. symmetry.
  destruct (ilog2_spec x Hx) as [Hlo Hhi].
  apply ilog2_unique; now rewrite <- Hxy.
Qed.

Lemma ilog2_mono (x y : Q) :
  (0 < x)%Q -> (x <= y)%Q -> Number.ilog2 x <= Number.ilog2 y.
Proof.
  intros Hx Hxy.
  assert (0 < y)%Q as Hy by (apply Qlt_le_trans with x; assumption).
  destruct (ilog2_spec x Hx) as [Hlo _].
  destruct (ilog2_spec y Hy) as [_ Hhi].
  assert (Number.ilog2 x < Number.ilog2 y + 1); [|lia].
  apply pow2_lt_inv. apply Qle_lt_trans with x; [assumption|].
  apply Qle_lt_trans with y; assumption.
Qed.

(** Rounding to the nearest integer, ties to even. *)

#[global] Instance roundHalfEven_comp : Proper (Qeq ==> eq) Number.roundHalfEven.
Proof.
  intros x y Hxy. unfold Number.roundHalfEven.
  rewrite (Qfloor_comp x y Hxy).
  assert (x - inject_Z (Qfloor y) == y - inject_Z (Qfloor y))%Q as ->
    by now rewrite Hxy.
  reflexivity.
Qed.

Lemma roundHalfEven_bounds (y : Q) :
  Qfloor y <= Number.roundHalfEven y <= Qfloor y + 1.
Proof.
  unfold Number.roundHalfEven.
  destruct (y - inject_Z (Qfloor y) ?= 1 # 2)%Q; [|lia|lia].
  destruct (Z.even (Qfloor y)); lia.
Qed.

Lemma roundHalfEven_Z (z : Z) : Number.roundHalfEven (inject_Z z) = z.
Proof.
  unfold Number.roundHalfEven. rewrite Qfloor_Z.
  destruct (Qcompare_spec (inject_Z z - inject_Z z) (1 # 2)) as [E|L|G];
    [exfalso; lra | reflexivity | exfalso; lra].
Qed.

Lemma roundHalfEven_mono (a b : Q) :
  (a <= b)%Q -> Number.roundHalfEven a <= Number.roundHalfEven b.
Proof.
  intros Hab.
  pose proof (Qfloor_resp_le a b Hab) as Hf.
  pose proof (roundHalfEven_bounds a) as Ha.
  pose proof (roundHalfEven_bounds b) as Hb.
  destruct (Z.eq_dec (Qfloor a) (Qfloor b)) as [E|NE]; [|lia].
  unfold Number.roundHalfEven in *. rewrite <- E in *.
  destruct (Qcompare_spec (a - inject_Z (Qfloor a)) (1 # 2)) as [Ea|La|Ga];
    destruct (Qcompare_spec (b - inject_Z (Qfloor a)) (1 # 2)) as [Eb|Lb|Gb];
    try lia; try (destruct (Z.even (Qfloor a)); lia); exfalso; lra.
Qed.

(** Rounding to 53 significant bits. *)

Lemma roundPositive_comp (x y : Q) :
  (0 < x)%Q -> (x == y)%Q -> (Number.roundPositive x == Number.roundPositive y)%Q.
Proof.
  intros Hx Hxy. unfold Number.roundPositive.
  rewrite <- (ilog2_comp x y Hx Hxy).
  generalize (Number.ilog2 x - (Number.precision - 1)). intros e.
  now rewrite Hxy.
Qed.

#[global] Instance round_comp : Proper (Qeq ==> Qeq) Number.round.
Proof.
  intros x y Hxy. unfold Number.round. rewrite <- Hxy.
  destruct (Qcompare_spec x 0) as [E|L|G].
  - reflexivity.
  - assert (0 < - x)%Q by lra.
    rewrite (roundPositive_comp (- x) (- y)); [reflexivity | assumption |].
    now rewrite Hxy.
  - now apply roundPositive_comp.
Qed.

Lemma scaled_bounds (x : Q) :
  (0 < x)%Q ->
  let e := Number.ilog2 x - (Number.precision - 1) in
  (2 ^ 52 <= x / 2 ^ e /\ x / 2 ^ e < 2 ^ 53)%Q.
Proof.
  intros Hx e. destruct (ilog2_spec x Hx) as [Hlo Hhi].
  pose proof (pow2_pos e) as He.
  assert (2 ^ Number.ilog2 x == 2 ^ 52 * 2 ^ e)%Q as E1.
  { rewrite <- pow2_add. subst e. unfold Number.precision.
    now replace (52 + (Number.ilog2 x - (53 - 1))) with (Number.ilog2 x) by lia. }
  assert (2 ^ (Number.ilog2 x + 1) == 2 ^ 53 * 2 ^ e)%Q as E2.
  { rewrite <- pow2_add. subst e. unfold Number.precision.
    now replace (53 + (Number.ilog2 x - (53 - 1))) with (Number.ilog2 x + 1) by lia. }
  rewrite E1 in Hlo. rewrite E2 in Hhi.
  split.
  - apply Qle_shift_div_l; assumption.
  - apply Qlt_shift_div_r; assumption.
Qed.

Lemma roundPositive_bounds (x : Q) :
  (0 < x)%Q ->
  (2 ^ Number.ilog2 x <= Number.roundPositive x
   /\ Number.roundPositive x <= 2 ^ (Number.ilog2 x + 1))%Q.
Proof.
  intros Hx. destruct (scaled_bounds x Hx) as [Hlo Hhi].
  unfold Number.roundPositive.
  set (e := Number.ilog2 x - (Number.precision - 1)) in *.
  pose proof (pow2_pos e) as He.
  pose proof (roundHalfEven_bounds (x / 2 ^ e)) as [Hr0 Hr1].
  assert (2 ^ 52 <= Qfloor (x / 2 ^ e))%Z as Hf0.
  { rewrite <- (Qfloor_Z (2 ^ 52)). apply Qfloor_resp_le.
    now rewrite pow2_inject by lia. }
  assert (Qfloor (x / 2 ^ e) < 2 ^ 53)%Z as Hf1.
  { rewrite Zlt_Qlt. apply Qle_lt_trans with (x / 2 ^ e)%Q; [apply Qfloor_le|].
    now rewrite pow2_inject by lia. }
  assert (2 ^ Number.ilog2 x == inject_Z (2 ^ 52) * 2 ^ e)%Q as E1.
  { rewrite pow2_inject by lia. rewrite <- pow2_add. subst e.
    unfold Number.precision.
    now replace (52 + (Number.ilog2 x - (53 - 1))) with (Number.ilog2 x) by lia. }
  assert (2 ^ (Number.ilog2 x + 1) == inject_Z (2 ^ 53) * 2 ^ e)%Q as E2.
  { rewrite pow2_inject by lia. rewrite <- pow2_add. subst e.
    unfold Number.precision.
    now replace (53 + (Number.ilog2 x - (53 - 1))) with (Number.ilog2 x + 1) by lia. }
  rewrite E1, E2. split.
  - apply Qmult_le_compat_r; [|now apply Qlt_le_weak].
    rewrite <- Zle_Qle. lia.
  - apply Qmult_le_compat_r; [|now apply Qlt_le_weak].
    rewrite <- Zle_Qle. lia.
Qed.

Lemma round_zero : (Number.round 0 == 0)%Q.
Proof. reflexivity. Qed.

Lemma round_positive (x : Q) :
  (0 < x)%Q -> Number.round x = Number.roundPositive x.
Proof.
  intros Hx. unfold Number.round.
  destruct (Qcompare_spec x 0) as [E|L|G];
    [exfalso; lra | exfalso; lra | reflexivity].
Qed.

Lemma round_nonneg (x : Q) : (0 <= x)%Q -> (0 <= Number.round x)%Q.
Proof.
  intros Hx. apply Qle_lteq in Hx. destruct Hx as [Hx|Hx].
  - rewrite round_positive by exact Hx.
    destruct (roundPositive_bounds x Hx) as [Hlo _].
    apply Qle_trans with (2 ^ Number.ilog2 x)%Q; [|exact Hlo].
    apply Qlt_le_weak, pow2_pos.
  - rewrite <- Hx. apply Qle_refl.
Qed.

Lemma round_mono (x y : Q) :
  (0 <= x)%Q -> (x <= y)%Q -> (Number.round x <= Number.round y)%Q.
Proof.
  intros Hx Hxy. apply Qle_lteq in Hx. destruct Hx as [Hx|Hx].
  - assert (0 < y)%Q as Hy by (apply Qlt_le_trans with x; assumption).
    rewrite !round_positive by assumption.
    pose proof (ilog2_mono x y Hx Hxy) as Hl.
    destruct (Z.eq_dec (Number.ilog2 x) (Number.ilog2 y)) as [E|NE].
    + unfold Number.roundPositive. rewrite <- E.
      set (e := Number.ilog2 x - (Number.precision - 1)).
      pose proof (pow2_pos e) as He.
      apply Qmult_le_compat_r; [|now apply Qlt_le_weak].
      rewrite <- Zle_Qle. apply roundHalfEven_mono.
      apply Qmult_le_compat_r; [exact Hxy|].
      apply Qlt_le_weak, Qinv_lt_0_compat, He.
    + destruct (roundPositive_bounds x Hx) as [_ Hhi].
      destruct (roundPositive_bounds y Hy) as [Hlo _].
      apply Qle_trans with (2 ^ (Number.ilog2 x + 1))%Q; [exact Hhi|].
      apply Qle_trans with (2 ^ Number.ilog2 y)%Q; [|exact Hlo].
      apply pow2_le. lia.
  - rewrite <- Hx. apply round_nonneg. now rewrite Hx.
Qed.

Lemma round_integer (z : Z) :
  0 <= z < 2 ^ 53 -> (Number.round (inject_Z z) == inject_Z z)%Q.
Proof.
  intros [Hz0 Hz1].
  destruct (Z.eq_dec z 0) as [->|Hnz]; [reflexivity|].
  assert (0 < inject_Z z)%Q as Hx.
  { change 0%Q with (inject_Z 0). rewrite <- Zlt_Qlt. lia. }
  rewrite round_positive by exact Hx.
  destruct (ilog2_spec _ Hx) as [Hlo Hhi].
  set (l := Number.ilog2 (inject_Z z)) in *.
  assert (0 <= l <= 52) as Hl.
  { split.
    - assert (0 < l + 1); [|lia]. apply pow2_lt_inv.
      apply Qle_lt_trans with (inject_Z z); [|exact Hhi].
      change (2 ^ 0)%Q with (inject_Z 1). rewrite <- Zle_Qle. lia.
    - assert (l < 53); [|lia]. apply pow2_lt_inv.
      apply Qle_lt_trans with (inject_Z z); [exact Hlo|].
      rewrite <- pow2_inject by lia. rewrite <- Zlt_Qlt. exact Hz1. }
  unfold Number.roundPositive. fold l. unfold Number.precision.
  replace (l - (53 - 1)) with (- (52 - l)) by lia.
  pose proof (pow2_cancel (52 - l)) as Hcan.
  pose proof (pow2_pos (- (52 - l))) as Hp.
  assert (inject_Z z / 2 ^ (- (52 - l)) == inject_Z (z * 2 ^ (52 - l)))%Q as E.
  { rewrite inject_Z_mult, pow2_inject by lia.
    apply Qmult_inj_r with (2 ^ (- (52 - l)))%Q.
    - intros H0. rewrite H0 in Hp. discriminate.
    - rewrite <- Qmult_assoc, Hcan. field.
      intros H0. rewrite H0 in Hp. discriminate. }
  rewrite E, roundHalfEven_Z.
  rewrite inject_Z_mult, pow2_inject by lia.
  rewrite <- Qmult_assoc, Hcan. ring.
Qed.

Lemma round_one : (Number.round 1 == 1)%Q.
Proof. apply (round_integer 1). split; [lia | reflexivity]. Qed.

#[global] Instance add_comp : Proper (Qeq ==> Qeq ==> Qeq) Number.add.
Proof. intros x x' Hx y y' Hy. unfold Number.add. now rewrite Hx, Hy. Qed.

#[global] Instance mul_comp : Proper (Qeq ==> Qeq ==> Qeq) Number.mul.
Proof. intros x x' Hx y y' Hy. unfold Number.mul. now rewrite Hx, Hy. Qed.

#[global] Instance div_comp : Proper (Qeq ==> Qeq ==> Qeq) Number.div.
Proof. intros x x' Hx y y' Hy. unfold Number.div. now rewrite Hx, Hy. Qed.

Lemma add_nonneg (x y : Q) : (0 <= x -> 0 <= y -> 0 <= x [+] y)%Q.
Proof. intros Hx Hy. apply round_nonneg. lra. Qed.

Lemma mul_nonneg (x y : Q) : (0 <= x -> 0 <= y -> 0 <= x [*] y)%Q.
Proof. intros Hx Hy. apply round_nonneg. now apply Qmult_le_0_compat. Qed.

Lemma div_nonneg (x y : Q) : (0 <= x -> 0 < y -> 0 <= x [/] y)%Q.
Proof.
  intros Hx Hy. apply round_nonneg.
  apply Qle_shift_div_l; [exact Hy | lra].
Qed.

Lemma add_mono (x x' y y' : Q) :
  (0 <= x -> x <= x' -> 0 <= y -> y <= y' -> x [+] y <= x' [+] y')%Q.
Proof. intros Hx Hxx Hy Hyy. apply round_mono; lra. Qed.

Lemma mul_mono (x x' y y' : Q) :
  (0 <= x -> x <= x' -> 0 <= y -> y <= y' -> x [*] y <= x' [*] y')%Q.
Proof.
  intros Hx Hxx Hy Hyy. apply round_mono.
  - now apply Qmult_le_0_compat.
  - apply Qmult_le_compat_nonneg; split; assumption.
Qed.

Lemma div_mono (x x' y : Q) :
  (0 <= x -> x <= x' -> 0 < y -> x [/] y <= x' [/] y)%Q.
Proof.
  intros Hx Hxx Hy. apply round_mono.
  - apply Qle_shift_div_l; [exact Hy | lra].
  - apply Qmult_le_compat_r; [exact Hxx|].
    apply Qlt_le_weak, Qinv_lt_0_compat, Hy.
Qed.

(** Sums and products of integers are exact below 2^53. *)
Lemma add_integer (a b : Z) :
  0 <= a -> 0 <= b -> a + b < 2 ^ 53 ->
  (inject_Z a [+] inject_Z b == inject_Z (a + b))%Q.
Proof.
  intros Ha Hb Hab. unfold Number.add. rewrite <- inject_Z_plus.
  apply round_integer. lia.
Qed.

Lemma mul_integer (a b : Z) :
  0 <= a -> 0 <= b -> a * b < 2 ^ 53 ->
  (inject_Z a [*] inject_Z b == inject_Z (a * b))%Q.
Proof.
  intros Ha Hb Hab. unfold Number.mul. rewrite <- inject_Z_mult.
  apply round_integer. nia.
Qed.

(** Rounding moves a number up by less than one part in 2^53. *)
Lemma roundHalfEven_above (y : Q) :
  (inject_Z (Number.roundHalfEven y) <= y + (1 # 2))%Q.
Proof.
  unfold Number.roundHalfEven.
  pose proof (Qfloor_le y) as Hf.
  destruct (Qcompare_spec (y - inject_Z (Qfloor y)) (1 # 2)) as [E|L|G].
  - destruct (Z.even (Qfloor y)); [lra|].
    rewrite inject_Z_plus. change (inject_Z 1) with 1%Q. lra.
  - lra.
  - rewrite inject_Z_plus. change (inject_Z 1) with 1%Q. lra.
Qed.

Lemma round_above (x : Q) :
  (0 < x)%Q -> (Number.round x <= x + x * 2 ^ (-53))%Q.
Proof.
  intros Hx. rewrite round_positive by exact Hx.
  destruct (ilog2_spec x Hx) as [Hlo _].
  unfold Number.roundPositive, Number.precision.
  set (e := Number.ilog2 x - (53 - 1)) in *.
  pose proof (pow2_pos e) as He.
  pose proof (roundHalfEven_above (x / 2 ^ e)) as Hr.
  assert (inject_Z (Number.roundHalfEven (x / 2 ^ e)) * 2 ^ e
          <= (x / 2 ^ e + (1 # 2)) * 2 ^ e)%Q as H1.
  { apply Qmult_le_compat_r; [exact Hr | now apply Qlt_le_weak]. }
  assert ((x / 2 ^ e + (1 # 2)) * 2 ^ e == x + (1 # 2) * 2 ^ e)%Q as H2.
  { field. intros H0. rewrite H0 in He. discriminate. }
  assert ((1 # 2) * 2 ^ e == 2 ^ Number.ilog2 x * 2 ^ (-53))%Q as H3.
  { change (1 # 2)%Q with (2 ^ (-1))%Q. rewrite <- !pow2_add. subst e.
    now replace (-1 + (Number.ilog2 x - (53 - 1)))
      with (Number.ilog2 x + -53) by lia. }
  pose proof (pow2_pos (-53)) as H53.
  assert (2 ^ Number.ilog2 x * 2 ^ (-53) <= x * 2 ^ (-53))%Q as H4.
  { apply Qmult_le_compat_r; [exact Hlo | now apply Qlt_le_weak]. }
  rewrite H2, H3 in H1. lra.
Qed.

(** [Math.floor(a / b)] on integers is the integer quotient. *)
Lemma floor_div_integer (a b : Z) :
  0 <= a < 2 ^ 53 -> 0 < b ->
  Qfloor (inject_Z a [/] inject_Z b) = a / b.
Proof.
  intros [Ha0 Ha1] Hb. unfold Number.div.
  assert (0 < inject_Z b)%Q as HbQ.
  { change 0%Q with (inject_Z 0). now rewrite <- Zlt_Qlt. }
  pose proof (Z.div_pos a b Ha0 Hb) as Hk0.
  pose proof (Z.mul_div_le a b Hb) as Hk1.
  pose proof (Z.mul_succ_div_gt a b Hb) as Hk2.
  set (k := a / b) in *.
  assert (k <= a) as Hka by nia.
  assert (inject_Z k <= inject_Z a / inject_Z b)%Q as Hlo.
  { apply Qle_shift_div_l; [exact HbQ|].
    rewrite <- inject_Z_mult, <- Zle_Qle. lia. }
  assert (inject_Z a / inject_Z b + 1 / inject_Z b <= inject_Z (k + 1))%Q
    as Hhi.
  { setoid_replace (inject_Z a / inject_Z b + 1 / inject_Z b)%Q
      with (inject_Z (a + 1) / inject_Z b)%Q
      by (rewrite inject_Z_plus; field; intros H0; rewrite H0 in HbQ;
          discriminate).
    apply Qle_shift_div_r; [exact HbQ|].
    rewrite <- inject_Z_mult, <- Zle_Qle. lia. }
  apply Z.le_antisymm.
  - assert (Qfloor (Number.round (inject_Z a / inject_Z b)) < k + 1);
      [|lia].
    rewrite Zlt_Qlt.
    apply Qle_lt_trans with (Number.round (inject_Z a / inject_Z b));
      [apply Qfloor_le|].
    destruct (Z.eq_dec a 0) as [->|Hnz].
    + setoid_replace (inject_Z 0 / inject_Z b)%Q with 0%Q
        by (field; intros H0; rewrite H0 in HbQ; discriminate).
      rewrite round_zero. change 0%Q with (inject_Z 0).
      rewrite <- Zlt_Qlt. lia.
    + assert (0 < inject_Z a)%Q as HaQ.
      { change 0%Q with (inject_Z 0). rewrite <- Zlt_Qlt. lia. }
      assert (0 < inject_Z a / inject_Z b)%Q as Hq.
      { apply Qlt_shift_div_l; [exact HbQ | lra]. }
      pose proof (round_above _ Hq) as Hr.
      assert (inject_Z a / inject_Z b * 2 ^ (-53) < 1 / inject_Z b)%Q as Hs.
      { setoid_replace (inject_Z a / inject_Z b * 2 ^ (-53))%Q
          with ((inject_Z a * 2 ^ (-53)) / inject_Z b)%Q
          by (field; intros H0; rewrite H0 in HbQ; discriminate).
        apply Qmult_lt_compat_r; [now apply Qinv_lt_0_compat|].
        apply Qmult_lt_r with (2 ^ 53)%Q; [apply pow2_pos|].
        rewrite <- Qmult_assoc.
        replace (-53) with (- (53)) by reflexivity.
        setoid_replace (2 ^ (- (53)) * 2 ^ 53)%Q with 1%Q
          by (rewrite Qmult_comm; apply pow2_cancel).
        rewrite Qmult_1_r, Qmult_1_l.
        rewrite <- (pow2_inject 53) by lia. now rewrite <- Zlt_Qlt. }
      lra.
  - rewrite <- (Qfloor_Z k). apply Qfloor_resp_le.
    rewrite <- (round_integer k) by lia.
    apply round_mono; [|exact Hlo].
    change 0%Q with (inject_Z 0). rewrite <- Zle_Qle. lia.
Qed.

(** The grid computations of [renderASCII], carried out on numbers, give
    the integers the model computes on [Z]. *)
Lemma sampleSize_binary64 (limit extent cell : Z) :
  0 <= extent < 2 ^ 53 -> 0 < cell ->
  Z.min limit (Qfloor (inject_Z extent [/] inject_Z cell))
  = sampleSize limit extent cell.
Proof.
  intros He Hc. rewrite floor_div_integer by assumption.
  unfold sampleSize.
  destruct (cell =? 0) eqn:E; [apply Z.eqb_eq in E; lia | reflexivity].
Qed.

Lemma pixelAnchor_binary64 (i extent samples : Z) :
  0 <= i -> 0 <= extent -> i * extent < 2 ^ 53 -> 0 < samples ->
  Qfloor (inject_Z i [*] inject_Z extent [/] inject_Z samples)
  = pixelAnchor i extent samples.
Proof.
  intros Hi He Hlt Hs. unfold pixelAnchor.
  rewrite <- (floor_div_integer (i * extent) samples);
    [|split; [nia | exact Hlt] | exact Hs].
  apply Qfloor_comp. apply div_comp; [|reflexivity].
  now apply mul_integer.
Qed.

(** ** Ranges *)

Lemma length_range (n : Z) : List.length (range n) = Z.to_nat n.
Proof. unfold range. now rewrite length_map, length_seq. Qed.

Lemma in_range (n i : Z) : In i (range n) <-> 0 <= i < n.
Proof.
  unfold range. rewrite in_map_iff. split.
  - intros [k [<- Hk]]. apply in_seq in Hk. lia.
  - intros Hi. exists (Z.to_nat i). split; [lia|].
    apply in_seq. lia.
Qed.

Lemma flat_map_ext_in {A B : Type} (f g : A -> list B) (l : list A) :
  (forall a, In a l -> f a = g a) -> flat_map f l = flat_map g l.
Proof.
  induction l as [|a l IH]; simpl; intros H; [reflexivity|].
  rewrite (H a) by now left.
  rewrite IH by (intros b Hb; apply H; now right). reflexivity.
Qed.

(** ** Luminance of one pixel *)

Lemma channel_bounds (b : byte) : (0 <= channel b <= 255)%Q.
Proof.
  unfold channel. pose proof (Byte.to_N_bounded b) as Hb.
  split.
  - change 0%Q with (inject_Z 0). rewrite <- Zle_Qle. lia.
  - change 255%Q with (inject_Z 255). rewrite <- Zle_Qle. lia.
Qed.

Lemma weights_nonneg :
  (0 <= weightRed /\ 0 <= weightGreen /\ 0 <= weightBlue)%Q.
Proof. repeat split; apply round_nonneg; discriminate. Qed.

Lemma weighted_nonneg (wr wg wb r g b a : Q) :
  (0 <= wr -> 0 <= wg -> 0 <= wb ->
   0 <= r -> 0 <= g -> 0 <= b -> 0 <= a ->
   0 <= (wr [*] r [+] wg [*] g [+] wb [*] b) [*] (a [/] 255))%Q.
Proof.
  intros Wr Wg Wb Hr Hg Hb Ha.
  apply mul_nonneg.
  - apply add_nonneg.
    + apply add_nonneg.
      * apply mul_nonneg; [exact Wr | exact Hr].
      * apply mul_nonneg; [exact Wg | exact Hg].
    + apply mul_nonneg; [exact Wb | exact Hb].
  - apply div_nonneg; [exact Ha | reflexivity].
Qed.

Lemma weighted_mono (wr wg wb r g b a r' g' b' a' : Q) :
  (0 <= wr -> 0 <= wg -> 0 <= wb ->
   0 <= r -> r <= r' -> 0 <= g -> g <= g' ->
   0 <= b -> b <= b' -> 0 <= a -> a <= a' ->
   (wr [*] r [+] wg [*] g [+] wb [*] b) [*] (a [/] 255)
   <= (wr [*] r' [+] wg [*] g' [+] wb [*] b') [*] (a' [/] 255))%Q.
Proof.
  intros Wr Wg Wb Hr Hr' Hg Hg' Hb Hb' Ha Ha'.
  apply mul_mono.
  - apply add_nonneg.
    + apply add_nonneg.
      * apply mul_nonneg; [exact Wr | exact Hr].
      * apply mul_nonneg; [exact Wg | exact Hg].
    + apply mul_nonneg; [exact Wb | exact Hb].
  - apply add_mono.
    + apply add_nonneg.
      * apply mul_nonneg; [exact Wr | exact Hr].
      * apply mul_nonneg; [exact Wg | exact Hg].
    + apply add_mono.
      * apply mul_nonneg; [exact Wr | exact Hr].
      * apply mul_mono; [exact Wr | apply Qle_refl | exact Hr | exact Hr'].
      * apply mul_nonneg; [exact Wg | exact Hg].
      * apply mul_mono; [exact Wg | apply Qle_refl | exact Hg | exact Hg'].
    + apply mul_nonneg; [exact Wb | exact Hb].
    + apply mul_mono; [exact Wb | apply Qle_refl | exact Hb | exact Hb'].
  - apply div_nonneg; [exact Ha | reflexivity].
  - apply div_mono; [exact Ha | exact Ha' | reflexivity].
Qed.

(** A pixel that is at most another in every channel is at most as
    luminous. *)
Lemma luminance_mono (p q : RGBA) :
  (channel (red p) <= channel (red q))%Q ->
  (channel (green p) <= channel (green q))%Q ->
  (channel (blue p) <= channel (blue q))%Q ->
  (channel (alpha p) <= channel (alpha q))%Q ->
  (luminance p <= luminance q)%Q.
Proof.
  intros Hr Hg Hb Ha.
  destruct weights_nonneg as (Wr & Wg & Wb).
  pose proof (channel_bounds (red p)) as [Hr0 _].
  pose proof (channel_bounds (green p)) as [Hg0 _].
  pose proof (channel_bounds (blue p)) as [Hb0 _].
  pose proof (channel_bounds (alpha p)) as [Ha0 _].
  exact (weighted_mono _ _ _ _ _ _ _ _ _ _ _
           Wr Wg Wb Hr0 Hr Hg0 Hg Hb0 Hb Ha0 Ha).
Qed.

Lemma luminance_nonneg (p : RGBA) : (0 <= luminance p)%Q.
Proof.
  destruct weights_nonneg as (Wr & Wg & Wb).
  pose proof (channel_bounds (red p)) as [Hr0 _].
  pose proof (channel_bounds (green p)) as [Hg0 _].
  pose proof (channel_bounds (blue p)) as [Hb0 _].
  pose proof (channel_bounds (alpha p)) as [Ha0 _].
  exact (weighted_nonneg _ _ _ _ _ _ _ Wr Wg Wb Hr0 Hg0 Hb0 Ha0).
Qed.

Lemma luminance_opaqueBlack : (luminance opaqueBlack == 0)%Q.
Proof. vm_compute. reflexivity. Qed.

Lemma luminance_transparentBlack : (luminance transparentBlack == 0)%Q.
Proof. vm_compute. reflexivity. Qed.

Lemma luminance_opaqueWhite : (luminance opaqueWhite == 255)%Q.
Proof. vm_compute. reflexivity. Qed.

Lemma luminance_bounds (p : RGBA) : (0 <= luminance p <= 255)%Q.
Proof.
  split; [apply luminance_nonneg|].
  rewrite <- luminance_opaqueWhite.
  apply luminance_mono; apply channel_bounds.
Qed.

(** ** Brightness and glyph index of a block *)

Lemma accumulate_from_bounds (data : list RGBA) (acc : Q) (k : Z) :
  0 <= k -> 255 * (k + Z.of_nat (List.length data)) < 2 ^ 53 ->
  (0 <= acc <= inject_Z (255 * k))%Q ->
  (0 <= fold_left (fun brightness p => brightness [+] luminance p) data acc
   <= inject_Z (255 * (k + Z.of_nat (List.length data))))%Q.
Proof.
  revert acc k. induction data as [|p data IH]; intros acc k Hk Hlen Hacc.
  - simpl. now rewrite Z.add_0_r.
  - cbn [fold_left List.length] in *. rewrite Nat2Z.inj_succ in *.
    replace (k + Z.succ (Z.of_nat (List.length data)))
      with ((k + 1) + Z.of_nat (List.length data)) in * by lia.
    destruct (luminance_bounds p) as [Hp0 Hp1]. destruct Hacc as [Ha0 Ha1].
    apply IH; [lia | exact Hlen |]. split.
    + now apply add_nonneg.
    + rewrite <- (round_integer (255 * (k + 1))) by lia.
      unfold Number.add. apply round_mono; [lra|].
      replace (255 * (k + 1)) with (255 * k + 255) by lia.
      rewrite inject_Z_plus. change (inject_Z 255) with 255%Q. lra.
Qed.

Lemma accumulate_bounds (data : list RGBA) :
  255 * Z.of_nat (List.length data) < 2 ^ 53 ->
  (0 <= accumulate data
   <= inject_Z (255 * Z.of_nat (List.length data)))%Q.
Proof.
  intros Hlen. unfold accumulate.
  apply (accumulate_from_bounds data 0%Q 0); [lia | exact Hlen |].
  split; [apply Qle_refl | apply Qle_refl].
Qed.

Lemma accumulate_from_nonneg (data : list RGBA) (acc : Q) :
  (0 <= acc)%Q ->
  (0 <= fold_left (fun brightness p => brightness [+] luminance p) data acc)%Q.
Proof.
  revert acc. induction data as [|p data IH]; intros acc Ha; [exact Ha|].
  simpl. apply IH. apply add_nonneg; [exact Ha | apply luminance_nonneg].
Qed.

Lemma blockBrightness_nonneg (data : list RGBA) (cw ch : Z) :
  0 <= cw -> 0 <= ch -> (0 <= blockBrightness data cw ch)%Q.
Proof.
  intros Hw Hh. unfold blockBrightness. apply round_nonneg.
  unfold Qdiv. apply Qmult_le_0_compat.
  - apply accumulate_from_nonneg, Qle_refl.
  - apply Qinv_le_0_compat.
    apply mul_nonneg; [apply mul_nonneg|]; try discriminate;
      change 0%Q with (inject_Z 0); rewrite <- Zle_Qle; assumption.
Qed.

(** [charWidth * charHeight * 255] is exact. *)
Lemma block_divisor (cw ch : Z) :
  0 < cw -> 0 < ch -> cw * ch * 255 < 2 ^ 53 ->
  (inject_Z cw [*] inject_Z ch [*] 255 == inject_Z (cw * ch * 255))%Q.
Proof.
  intros Hw Hh Hlt.
  rewrite (mul_integer cw ch) by nia.
  change 255%Q with (inject_Z 255).
  apply mul_integer; nia.
Qed.

Lemma blockBrightness_bounds (data : list RGBA) (cw ch : Z) :
  0 < cw -> 0 < ch -> cw * ch * 255 < 2 ^ 53 ->
  List.length data = (Z.to_nat ch * Z.to_nat cw)%nat ->
  (0 <= blockBrightness data cw ch <= 1)%Q.
Proof.
  intros Hw Hh Hlt Hlen. unfold blockBrightness.
  assert (Z.of_nat (List.length data) = cw * ch) as HZ by (rewrite Hlen; lia).
  destruct (accumulate_bounds data) as [Hlo Hhi]; [rewrite HZ; lia|].
  rewrite HZ in Hhi.
  rewrite (block_divisor cw ch Hw Hh Hlt).
  assert (0 < inject_Z (cw * ch * 255))%Q as Hpos.
  { change 0%Q with (inject_Z 0). rewrite <- Zlt_Qlt. nia. }
  split.
  - now apply div_nonneg.
  - rewrite <- round_one. unfold Number.div. apply round_mono.
    + apply Qle_shift_div_l; [exact Hpos | lra].
    + apply Qle_shift_div_r; [exact Hpos|].
      rewrite Qmult_1_l. now replace (cw * ch * 255) with (255 * (cw * ch)) by lia.
Qed.

Lemma charIndexOf_bounds (b : Q) :
  (0 <= b <= 1)%Q -> 0 <= charIndexOf b <= rampLength - 1.
Proof.
  intros [Hlo Hhi]. unfold charIndexOf.
  change (inject_Z (rampLength - 1)) with 9%Q.
  change (rampLength - 1) with 9.
  assert (0 <= b [*] 9)%Q as H0 by (apply mul_nonneg; [exact Hlo | discriminate]).
  assert (b [*] 9 <= 9)%Q as H9.
  { rewrite <- (round_integer 9) at 2 by (split; [lia | reflexivity]).
    unfold Number.mul. apply round_mono.
    - apply Qmult_le_0_compat; [exact Hlo | discriminate].
    - change (inject_Z 9) with 9%Q. lra. }
  apply Qfloor_resp_le in H0. apply Qfloor_resp_le in H9.
  change (Qfloor 0%Q) with 0 in H0. change (Qfloor 9%Q) with 9 in H9.
  lia.
Qed.

Lemma charIndexOf_mono (b1 b2 : Q) :
  (0 <= b1)%Q -> (b1 <= b2)%Q -> charIndexOf b1 <= charIndexOf b2.
Proof.
  intros H0 H. unfold charIndexOf. apply Qfloor_resp_le.
  change (inject_Z (rampLength - 1)) with 9%Q.
  apply mul_mono; [exact H0 | exact H | discriminate | apply Qle_refl].
Qed.

Lemma charIndexOf_comp (b1 b2 : Q) :
  (b1 == b2)%Q -> charIndexOf b1 = charIndexOf b2.
Proof. intros H. unfold charIndexOf. now rewrite H. Qed.

Lemma charAt_ramp (i : Z) :
  0 <= i <= rampLength - 1 ->
  exists g, charAt ASCII_CHARS i = Some g /\ g <> newline.
Proof.
  change (rampLength - 1) with 9. intros Hi.
  assert (i = 0 \/ i = 1 \/ i = 2 \/ i = 3 \/ i = 4 \/ i = 5 \/ i = 6
          \/ i = 7 \/ i = 8 \/ i = 9) as Hcases by lia.
  repeat (destruct Hcases as [-> | Hcases]); try subst i;
    (eexists; split; [reflexivity | discriminate]).
Qed.

(** ** The sampled block *)

Lemma getImageData_positive (ctx : CanvasRenderingContext2D) (sx sy sw sh : Z) :
  0 < sw -> 0 < sh ->
  getImageData ctx sx sy sw sh = Normal (imageRect ctx sx sy sw sh).
Proof.
  intros Hw Hh. unfold getImageData.
  destruct (sw =? 0) eqn:Ew; [apply Z.eqb_eq in Ew; lia|].
  destruct (sh =? 0) eqn:Eh; [apply Z.eqb_eq in Eh; lia|].
  destruct (sw <? 0) eqn:Lw; [apply Z.ltb_lt in Lw; lia|].
  destruct (sh <? 0) eqn:Lh; [apply Z.ltb_lt in Lh; lia|].
  simpl. now rewrite !Z.abs_eq by lia.
Qed.

Lemma length_imageRect (ctx : CanvasRenderingContext2D) (x0 y0 w h : Z) :
  List.length (imageRect ctx x0 y0 w h) = (Z.to_nat h * Z.to_nat w)%nat.
Proof.
  unfold imageRect. rewrite <- (length_range h).
  induction (range h) as [|dy l IH]; simpl; [reflexivity|].
  now rewrite length_app, length_map, length_range, IH.
Qed.

Lemma readPixel_inside (canvas : HTMLCanvasElement)
  (ctx : CanvasRenderingContext2D) (x y : Z) :
  getContext canvas = Some ctx ->
  0 <= x < Z.of_N (width canvas) -> 0 <= y < Z.of_N (height canvas) ->
  readPixel ctx x y = bitmap canvas x y.
Proof.
  unfold getContext. destruct (context2d canvas); [|discriminate].
  intros [= <-] Hx Hy. unfold readPixel, insideBitmap. simpl.
  destruct (0 <=? x) eqn:E1; [|apply Z.leb_gt in E1; lia].
  destruct (x <? Z.of_N (width canvas)) eqn:E2; [|apply Z.ltb_ge in E2; lia].
  destruct (0 <=? y) eqn:E3; [|apply Z.leb_gt in E3; lia].
  destruct (y <? Z.of_N (height canvas)) eqn:E4; [|apply Z.ltb_ge in E4; lia].
  reflexivity.
Qed.

(** Outside the bitmap a pixel adds nothing to the sum. *)
Lemma readPixel_outside (ctx : CanvasRenderingContext2D) (x y : Z) :
  insideBitmap ctx x y = false -> (luminance (readPixel ctx x y) == 0)%Q.
Proof.
  intros H. unfold readPixel. rewrite H. apply luminance_transparentBlack.
Qed.

(** A block inside the frame is read as the frame has it. *)
Lemma imageRect_frame (canvas : HTMLCanvasElement)
  (ctx : CanvasRenderingContext2D) (px py cw ch : Z) :
  getContext canvas = Some ctx ->
  0 <= px -> px + cw <= Z.of_N (width canvas) ->
  0 <= py -> py + ch <= Z.of_N (height canvas) ->
  imageRect ctx px py cw ch = framePixels canvas px py cw ch.
Proof.
  intros Hctx Hx0 Hx1 Hy0 Hy1. unfold imageRect, framePixels.
  apply flat_map_ext_in. intros dy Hdy. apply in_range in Hdy.
  apply map_ext_in. intros dx Hdx. apply in_range in Hdx.
  apply (readPixel_inside canvas ctx); (assumption || lia).
Qed.

Lemma length_framePixels (canvas : HTMLCanvasElement) (px py cw ch : Z) :
  List.length (framePixels canvas px py cw ch)
  = (Z.to_nat ch * Z.to_nat cw)%nat.
Proof.
  unfold framePixels. rewrite <- (length_range ch).
  induction (range ch) as [|dy l IH]; simpl; [reflexivity|].
  now rewrite length_app, length_map, length_range, IH.
Qed.

Lemma framePixels_uniform (canvas : HTMLCanvasElement) (p : RGBA)
  (px py cw ch : Z) :
  uniformFrame canvas p ->
  0 <= px -> px + cw <= Z.of_N (width canvas) ->
  0 <= py -> py + ch <= Z.of_N (height canvas) ->
  framePixels canvas px py cw ch = repeat p (Z.to_nat ch * Z.to_nat cw).
Proof.
  intros Hu Hx0 Hx1 Hy0 Hy1.
  rewrite <- (length_framePixels canvas px py cw ch).
  apply Forall_eq_repeat.
  unfold framePixels. apply Forall_forall. intros q Hq.
  apply in_flat_map in Hq. destruct Hq as [dy [Hdy Hq]].
  apply in_map_iff in Hq. destruct Hq as [dx [<- Hdx]].
  apply in_range in Hdy. apply in_range in Hdx.
  symmetry. apply Hu; lia.
Qed.

(** ** Loops that build a string *)

Lemma forLoop_append (g : Z -> string)
  (body : Z -> string -> completion string) (n s : nat) (acc : string) :
  (forall i a, Z.of_nat s <= i < Z.of_nat s + Z.of_nat n ->
               body i a = Normal (a ++ g i)%string) ->
  forLoop n (Z.of_nat s) body acc
  = Normal (acc ++ joined (map g (map Z.of_nat (seq s n))))%string.
Proof.
  revert s acc. induction n as [|n IH]; intros s acc Hbody.
  - simpl. now rewrite append_empty_r.
  - cbn [forLoop]. rewrite Hbody by lia. cbn [bind].
    replace (Z.of_nat s + 1) with (Z.of_nat (S s)) by lia.
    rewrite IH by (intros i a Hi; apply Hbody; lia).
    simpl. now rewrite append_assoc.
Qed.

Lemma joined_glyphs (glyph : Z -> ascii) (l : list Z) :
  joined (map (fun x => String (glyph x) EmptyString) l)
  = string_of_list_ascii (map glyph l).
Proof. induction l as [|x l IH]; simpl; [reflexivity | now rewrite IH]. Qed.

Lemma joined_lines (row : Z -> string) (l : list Z) :
  joined (map (fun y => (row y ++ String newline EmptyString)%string) l)
  = unlines (map row l).
Proof.
  induction l as [|y l IH]; simpl; [reflexivity|].
  now rewrite IH, append_assoc.
Qed.

(** ** One grid cell *)

Section Cell.

Variable canvas : HTMLCanvasElement.
Variable options : ASCIIRenderOptions.
Variable ctx : CanvasRenderingContext2D.

Hypothesis readable : getContext canvas = Some ctx.
Hypothesis cell_wide : 0 < orDefault (charWidth options) 10.
Hypothesis cell_high : 0 < orDefault (charHeight options) 14.

Let cw := orDefault (charWidth options) 10.
Let ch := orDefault (charHeight options) 14.

Lemma cell_block_inside (x y : Z) :
  0 <= x < sampleWidth canvas options ->
  0 <= y < sampleHeight canvas options ->
  let px := pixelAnchor x (Z.of_N (width canvas)) (sampleWidth canvas options) in
  let py := pixelAnchor y (Z.of_N (height canvas)) (sampleHeight canvas options) in
  (0 <= px /\ px + cw <= Z.of_N (width canvas)) /\
  (0 <= py /\ py + ch <= Z.of_N (height canvas)).
Proof.
  intros Hx Hy. split.
  - apply pixelAnchor_block_inside; [exact cell_wide | lia | exact Hx].
  - apply pixelAnchor_block_inside; [exact cell_high | lia | exact Hy].
Qed.

(** A cell of a storable frame has fewer than 2^45 pixels. *)
Lemma cell_area (x y : Z) :
  storable canvas ->
  0 <= x < sampleWidth canvas options ->
  0 <= y < sampleHeight canvas options ->
  cw * ch * 255 < 2 ^ 53.
Proof.
  unfold storable. intros Hs Hx Hy.
  destruct (cell_block_inside x y Hx Hy) as [[Hx0 Hx1] [Hy0 Hy1]].
  fold cw ch in cell_wide, cell_high.
  assert (cw * ch <= Z.of_N (width canvas) * Z.of_N (height canvas)) by nia.
  change (2 ^ 53) with (2 ^ 45 * 256). nia.
Qed.

Lemma cellIndex_normal (x y : Z) :
  0 <= x < sampleWidth canvas options ->
  0 <= y < sampleHeight canvas options ->
  cellIndex ctx canvas options x y
  = Normal (charIndexOf (cellBrightness canvas options x y)).
Proof.
  intros Hx Hy. destruct (cell_block_inside x y Hx Hy) as [[Hx0 Hx1] [Hy0 Hy1]].
  unfold cellIndex, cellBrightness.
  rewrite getImageData_positive by assumption.
  rewrite (imageRect_frame canvas ctx) by assumption.
  reflexivity.
Qed.

Lemma cellBrightness_nonneg (x y : Z) :
  (0 <= cellBrightness canvas options x y)%Q.
Proof. unfold cellBrightness. apply blockBrightness_nonneg; lia. Qed.

Lemma cellBrightness_bounds (x y : Z) :
  storable canvas ->
  0 <= x < sampleWidth canvas options ->
  0 <= y < sampleHeight canvas options ->
  (0 <= cellBrightness canvas options x y <= 1)%Q.
Proof.
  intros Hs Hx Hy. unfold cellBrightness.
  apply blockBrightness_bounds;
    [exact cell_wide | exact cell_high | now apply (cell_area x y) |
      apply length_framePixels].
Qed.

Lemma cellGlyph_some (x y : Z) :
  storable canvas ->
  0 <= x < sampleWidth canvas options ->
  0 <= y < sampleHeight canvas options ->
  exists g, cellGlyph canvas options x y = Some g /\ g <> newline.
Proof.
  intros Hs Hx Hy. unfold cellGlyph. apply charAt_ramp, charIndexOf_bounds.
  now apply cellBrightness_bounds.
Qed.

Lemma renderASCII_rows_with :
  (forall x y,
      0 <= x < sampleWidth canvas options ->
      0 <= y < sampleHeight canvas options ->
      exists g, cellGlyph canvas options x y = Some g) ->
  renderASCII canvas options = Normal (unlines (gridRows canvas options)).
Proof.
  intros Hglyph. unfold renderASCII. rewrite readable.
  rewrite (forLoop_append
             (fun y => (gridRow canvas options y ++ String newline EmptyString)%string)
             _ _ 0%nat).
  - simpl. now rewrite joined_lines.
  - intros y acc Hy.
    rewrite (forLoop_append
               (fun x => String (glyphOr " "%char (cellGlyph canvas options x y))
                           EmptyString) _ _ 0%nat).
    + cbn [bind]. unfold gridRow, range. rewrite joined_glyphs.
      now rewrite append_assoc.
    + intros x a Hx. rewrite cellIndex_normal by lia. cbn [bind].
      destruct (Hglyph x y) as [g Hg]; [lia | lia |].
      unfold cellGlyph in Hg. unfold cellGlyph. rewrite Hg. reflexivity.
Qed.

Lemma renderASCII_rows :
  storable canvas ->
  renderASCII canvas options = Normal (unlines (gridRows canvas options)).
Proof.
  intros Hs. apply renderASCII_rows_with. intros x y Hx Hy.
  destruct (cellGlyph_some x y Hs Hx Hy) as [g [Hg _]]. now exists g.
Qed.

End Cell.

(** ** Frames of one colour *)

Lemma accumulate_from_zero (data : list RGBA) (acc : Q) :
  Forall (fun p => (luminance p == 0)%Q) data -> (acc == 0)%Q ->
  (fold_left (fun brightness p => brightness [+] luminance p) data acc == 0)%Q.
Proof.
  intros Hall. revert acc.
  induction Hall as [|p data Hp _ IH]; intros acc Ha; [exact Ha|].
  simpl. apply IH. now rewrite Ha, Hp.
Qed.

Lemma accumulate_from_white (data : list RGBA) (acc : Q) (k : Z) :
  Forall (fun p => (luminance p == 255)%Q) data ->
  0 <= k -> 255 * (k + Z.of_nat (List.length data)) < 2 ^ 53 ->
  (acc == inject_Z (255 * k))%Q ->
  (fold_left (fun brightness p => brightness [+] luminance p) data acc
   == inject_Z (255 * (k + Z.of_nat (List.length data))))%Q.
Proof.
  intros Hall. revert acc k.
  induction Hall as [|p data Hp _ IH]; intros acc k Hk Hlen Ha.
  - simpl. now rewrite Z.add_0_r.
  - cbn [fold_left List.length] in *. rewrite Nat2Z.inj_succ in *.
    replace (k + Z.succ (Z.of_nat (List.length data)))
      with ((k + 1) + Z.of_nat (List.length data)) in * by lia.
    apply IH; [lia | exact Hlen |].
    rewrite Ha, Hp. change 255%Q with (inject_Z 255).
    rewrite add_integer by lia.
    now replace (255 * k + 255) with (255 * (k + 1)) by lia.
Qed.

Lemma blockBrightness_black (n : nat) (cw ch : Z) :
  (blockBrightness (repeat opaqueBlack n) cw ch == 0)%Q.
Proof.
  unfold blockBrightness, accumulate.
  rewrite (accumulate_from_zero (repeat opaqueBlack n) 0%Q);
    [|apply Forall_forall; intros p Hp; apply repeat_spec in Hp; subst p;
      apply luminance_opaqueBlack | reflexivity].
  unfold Number.div, Qdiv. now rewrite Qmult_0_l.
Qed.

Lemma blockBrightness_white (cw ch : Z) :
  0 < cw -> 0 < ch -> cw * ch * 255 < 2 ^ 53 ->
  (blockBrightness (repeat opaqueWhite (Z.to_nat ch * Z.to_nat cw)) cw ch
   == 1)%Q.
Proof.
  intros Hw Hh Hlt. unfold blockBrightness, accumulate.
  assert (Z.of_nat (List.length (repeat opaqueWhite (Z.to_nat ch * Z.to_nat cw)))
          = cw * ch) as HZ by (rewrite repeat_length; lia).
  rewrite (accumulate_from_white _ 0%Q 0);
    [|apply Forall_forall; intros p Hp; apply repeat_spec in Hp; subst p;
      apply luminance_opaqueWhite | lia | rewrite HZ; lia | reflexivity].
  rewrite HZ, (block_divisor cw ch Hw Hh Hlt).
  replace (255 * (0 + cw * ch)) with (cw * ch * 255) by lia.
  unfold Number.div. rewrite <- round_one. apply round_comp.
  field. change 0%Q with (inject_Z 0). rewrite inject_Z_injective. nia.
Qed.

Lemma charIndexOf_zero : charIndexOf 0 = 0.
Proof. vm_compute. reflexivity. Qed.

Lemma charIndexOf_one : charIndexOf 1 = rampLength - 1.
Proof. vm_compute. reflexivity. Qed.

Section UniformFrame.

Variable canvas : HTMLCanvasElement.
Variable options : ASCIIRenderOptions.
Variable ctx : CanvasRenderingContext2D.
Variable p : RGBA.

Hypothesis readable : getContext canvas = Some ctx.
Hypothesis cell_wide : 0 < orDefault (charWidth options) 10.
Hypothesis cell_high : 0 < orDefault (charHeight options) 14.
Hypothesis uniform : uniformFrame canvas p.

Lemma cellBrightness_uniform (x y : Z) :
  0 <= x < sampleWidth canvas options ->
  0 <= y < sampleHeight canvas options ->
  cellBrightness canvas options x y
  = blockBrightness
      (repeat p (Z.to_nat (orDefault (charHeight options) 14)
                 * Z.to_nat (orDefault (charWidth options) 10)))
      (orDefault (charWidth options) 10) (orDefault (charHeight options) 14).
Proof.
  intros Hx Hy.
  destruct (cell_block_inside canvas options cell_wide cell_high x y Hx Hy)
    as [[Hx0 Hx1] [Hy0 Hy1]].
  unfold cellBrightness.
  now rewrite (framePixels_uniform canvas p) by assumption.
Qed.

Lemma renderASCII_uniform (i : Z) (g : ascii) :
  (forall x y,
      0 <= x < sampleWidth canvas options ->
      0 <= y < sampleHeight canvas options ->
      charIndexOf (cellBrightness canvas options x y) = i) ->
  charAt ASCII_CHARS i = Some g ->
  renderASCII canvas options
  = Normal (solidBlock g (sampleWidth canvas options)
              (sampleHeight canvas options)).
Proof.
  intros Hi Hg.
  assert (forall x y,
             0 <= x < sampleWidth canvas options ->
             0 <= y < sampleHeight canvas options ->
             cellGlyph canvas options x y = Some g) as Hcell.
  { intros x y Hx Hy. unfold cellGlyph. now rewrite Hi. }
  rewrite (renderASCII_rows_with canvas options ctx readable cell_wide cell_high)
    by (intros x y Hx Hy; exists g; now apply Hcell).
  unfold solidBlock. f_equal. f_equal. unfold gridRows.
  assert (forall y, 0 <= y < sampleHeight canvas options ->
            gridRow canvas options y
            = string_of_list_ascii
                (repeat g (Z.to_nat (sampleWidth canvas options)))) as Hrow.
  { intros y Hy. unfold gridRow. f_equal.
    assert (forall x, In x (range (sampleWidth canvas options)) ->
              glyphOr " "%char (cellGlyph canvas options x y) = g) as Hx.
    { intros x Hx. apply in_range in Hx. now rewrite Hcell. }
    rewrite <- (length_range (sampleWidth canvas options)).
    induction (range (sampleWidth canvas options)) as [|x l IH];
      simpl; [reflexivity|].
    rewrite Hx by now left.
    rewrite IH by (intros x' Hx'; apply Hx; now right). reflexivity. }
  assert (forall y, In y (range (sampleHeight canvas options)) ->
            0 <= y < sampleHeight canvas options) as Hin
    by (intros y Hy; now apply in_range).
  rewrite <- (length_range (sampleHeight canvas options)).
  induction (range (sampleHeight canvas options)) as [|y l IH];
    simpl; [reflexivity|].
  rewrite Hrow by (apply Hin; now left).
  rewrite IH by (intros y' Hy'; apply Hin; now right). reflexivity.
Qed.

End UniformFrame.

Lemma charAt_rampGlyph (i : Z) (g : ascii) :
  charAt ASCII_CHARS i = Some g -> rampGlyph g.
Proof.
  unfold charAt. destruct (i <? 0); [discriminate|].
  generalize (Z.to_nat i). intros n. unfold rampGlyph.
  generalize ASCII_CHARS. intros s. revert n.
  induction s as [|a s IH]; intros n H; [discriminate|].
  destruct n as [|n]; simpl in H.
  - injection H as ->. now left.
  - right. exact (IH n H).
Qed.

Lemma validOptions_cell (options : ASCIIRenderOptions) :
  validOptions options ->
  0 < orDefault (charWidth options) 10 /\ 0 < orDefault (charHeight options) 14.
Proof. unfold validOptions. tauto. Qed.

Lemma getContext_some (canvas : HTMLCanvasElement) :
  getContext canvas <> None -> exists ctx, getContext canvas = Some ctx.
Proof. destruct (getContext canvas) as [ctx|]; [eauto | congruence]. Qed.

Lemma sampleWidth_valid (canvas : HTMLCanvasElement)
  (options : ASCIIRenderOptions) :
  validOptions options ->
  sampleWidth canvas options
  = Z.min (orDefault (maxWidth options) 100)
      (Z.of_N (width canvas) / orDefault (charWidth options) 10)
  /\ 0 <= sampleWidth canvas options.
Proof.
  intros (Hcw & Hch & Hmw & Hmh). unfold sampleWidth. split.
  - now apply sampleSize_cell_pos.
  - apply sampleSize_nonneg; lia.
Qed.

Lemma sampleHeight_valid (canvas : HTMLCanvasElement)
  (options : ASCIIRenderOptions) :
  validOptions options ->
  sampleHeight canvas options
  = Z.min (orDefault (maxHeight options) 60)
      (Z.of_N (height canvas) / orDefault (charHeight options) 14)
  /\ 0 <= sampleHeight canvas options.
Proof.
  intros (Hcw & Hch & Hmw & Hmh). unfold sampleHeight. split.
  - now apply sampleSize_cell_pos.
  - apply sampleSize_nonneg; lia.
Qed.

Lemma gridRows_shape (canvas : HTMLCanvasElement)
  (options : ASCIIRenderOptions) :
  storable canvas -> validOptions options ->
  List.length (gridRows canvas options)
  = Z.to_nat (sampleHeight canvas options) /\
  Forall (fun l =>
            String.length l = Z.to_nat (sampleWidth canvas options) /\
            countChar newline l = O /\
            Forall rampGlyph (list_ascii_of_string l))
    (gridRows canvas options).
Proof.
  intros Hs Hv. destruct (validOptions_cell options Hv) as [Hcw Hch].
  unfold gridRows. split.
  - now rewrite length_map, length_range.
  - apply Forall_forall. intros l Hl.
    apply in_map_iff in Hl. destruct Hl as [y [<- Hy]].
    apply in_range in Hy. unfold gridRow.
    assert (Forall (fun a => a <> newline /\ rampGlyph a)
              (map (fun x => glyphOr " "%char (cellGlyph canvas options x y))
                 (range (sampleWidth canvas options)))) as HF.
    { apply Forall_forall. intros a Ha.
      apply in_map_iff in Ha. destruct Ha as [x [<- Hx]].
      apply in_range in Hx.
      destruct (cellGlyph_some canvas options Hcw Hch x y Hs Hx Hy)
        as [g [Hg Hnl]].
      rewrite Hg. simpl. split; [exact Hnl|].
      unfold cellGlyph in Hg. exact (charAt_rampGlyph _ _ Hg). }
    split; [|split].
    + now rewrite length_string_of_list_ascii, length_map, length_range.
    + apply countChar_string_of_list_ascii.
      eapply Forall_impl; [|exact HF]. simpl. tauto.
    + rewrite list_ascii_of_string_of_list_ascii.
      eapply Forall_impl; [|exact HF]. simpl. tauto.
Qed.

Lemma unlines_joined (ls : list string) :
  unlines ls
  = joined (map (fun l => (l ++ String newline EmptyString)%string) ls).
Proof.
  induction ls as [|l ls IH]; simpl; [reflexivity|].
  now rewrite IH, append_assoc.
Qed.

Lemma unlines_empty (ls : list string) : unlines ls = EmptyString -> ls = [].
Proof.
  destruct ls as [|l ls]; [reflexivity|]. simpl.
  destruct l; discriminate.
Qed.

(** * The claims *)

(** ** C1: effective grid size *)

(** C1, as stated, fails: on a readable 5 by 5 frame with the default
    options the grid of [renderASCII] has no column and no row, where the
    grid floored at 1 has one of each. *)
Lemma C1_grid_is_not_floored_at_1 :
  validOptions defaultOptions /\
  getContext tinyCanvas <> None /\
  ~ (sampleWidth tinyCanvas defaultOptions = specCols tinyCanvas defaultOptions
     /\ sampleHeight tinyCanvas defaultOptions
        = specRows tinyCanvas defaultOptions
     /\ 1 <= sampleWidth tinyCanvas defaultOptions
     /\ 1 <= sampleHeight tinyCanvas defaultOptions).
Proof.
  split; [|split].
  - unfold validOptions. simpl. lia.
  - discriminate.
  - intros (H & _). vm_compute in H. discriminate.
Qed.

(** C1 (amended): with positive integer options, [renderASCII] uses
    cols = min(maxWidth, floor(width / charWidth)) and
    rows = min(maxHeight, floor(height / charHeight)), not floored at 1:
    both are non-negative, cols is at least 1 exactly when the frame is at
    least one cell wide, rows exactly when it is at least one cell high, and
    a readable frame lower than one cell renders as the empty string. *)
Theorem C1_effective_grid_size (canvas : HTMLCanvasElement)
  (options : ASCIIRenderOptions) :
  validOptions options ->
  let cols := sampleWidth canvas options in
  let rows := sampleHeight canvas options in
  cols = Z.min (orDefault (maxWidth options) 100)
           (Z.of_N (width canvas) / orDefault (charWidth options) 10) /\
  rows = Z.min (orDefault (maxHeight options) 60)
           (Z.of_N (height canvas) / orDefault (charHeight options) 14) /\
  0 <= cols /\ 0 <= rows /\
  (1 <= cols <-> orDefault (charWidth options) 10 <= Z.of_N (width canvas)) /\
  (1 <= rows <-> orDefault (charHeight options) 14 <= Z.of_N (height canvas)) /\
  (getContext canvas <> None ->
   Z.of_N (height canvas) < orDefault (charHeight options) 14 ->
   renderASCII canvas options = Normal EmptyString).
Proof.
  intros Hv cols rows.
  destruct (sampleWidth_valid canvas options Hv) as [Hc Hc0].
  destruct (sampleHeight_valid canvas options Hv) as [Hr Hr0].
  destruct Hv as (Hcw & Hch & Hmw & Hmh).
  pose proof (sampleSize_ge_1 (orDefault (maxWidth options) 100)
                (Z.of_N (width canvas)) _ Hcw) as Hw1.
  pose proof (sampleSize_ge_1 (orDefault (maxHeight options) 60)
                (Z.of_N (height canvas)) _ Hch) as Hh1.
  fold (sampleWidth canvas options) in Hw1.
  fold (sampleHeight canvas options) in Hh1.
  repeat split; try assumption; try tauto; try lia.
  intros Hctx Hlow.
  destruct (getContext_some canvas Hctx) as [ctx Hsome].
  unfold renderASCII. rewrite Hsome.
  assert (sampleHeight canvas options = 0) as -> by (subst rows; lia).
  reflexivity.
Qed.

Lemma C1_effective_grid_size_witness :
  validOptions vgaOptions /\
  sampleWidth (solidCanvas 640 480 opaqueBlack) vgaOptions = 64 /\
  sampleHeight (solidCanvas 640 480 opaqueBlack) vgaOptions = 34.
Proof.
  assert (validOptions vgaOptions) as Hv by (unfold validOptions; simpl; lia).
  split; [exact Hv|].
  destruct (C1_effective_grid_size (solidCanvas 640 480 opaqueBlack)
              vgaOptions Hv) as (Hc & Hr & _).
  split; [rewrite Hc | rewrite Hr]; reflexivity.
Defined.

(** ** C2: shape of the text block *)

(** C2, as stated, fails: section 4.1 gives the readable 5 by 5 frame a
    grid of one row and one column, and [renderASCII] returns the empty
    string, which has no line. *)
Lemma C2_no_line_for_tiny_frame :
  validOptions defaultOptions /\
  getContext tinyCanvas <> None /\
  storable tinyCanvas /\
  ~ (exists text,
       renderASCII tinyCanvas defaultOptions = Normal text /\
       rectangularBlock text (specRows tinyCanvas defaultOptions)
         (specCols tinyCanvas defaultOptions)).
Proof.
  split; [|split; [|split]].
  - unfold validOptions. simpl. lia.
  - discriminate.
  - reflexivity.
  - intros (text & Hr & ls & Ht & Hn & _).
    vm_compute in Hr. injection Hr as <-.
    symmetry in Ht. apply unlines_empty in Ht. subst ls.
    vm_compute in Hn. discriminate.
Qed.

(** C2 (amended): for a readable frame (of fewer than 2^45 pixels) and
    positive integer options the block returned by [renderASCII] consists of
    exactly rows lines of exactly cols characters each, every line ended by
    a newline, where rows = min(maxHeight, floor(height / charHeight)) and
    cols = min(maxWidth, floor(width / charWidth)) are not floored at 1;
    taken apart at the newlines it gives these lines and a final empty
    piece. *)
Theorem C2_rows_by_cols_block (canvas : HTMLCanvasElement)
  (options : ASCIIRenderOptions) :
  getContext canvas <> None -> storable canvas -> validOptions options ->
  exists text,
    renderASCII canvas options = Normal text /\
    rectangularBlock text (sampleHeight canvas options)
      (sampleWidth canvas options) /\
    splitLines text = gridRows canvas options ++ [EmptyString] /\
    sampleHeight canvas options
    = Z.min (orDefault (maxHeight options) 60)
        (Z.of_N (height canvas) / orDefault (charHeight options) 14) /\
    sampleWidth canvas options
    = Z.min (orDefault (maxWidth options) 100)
        (Z.of_N (width canvas) / orDefault (charWidth options) 10).
Proof.
  intros Hctx Hs Hv. destruct (getContext_some canvas Hctx) as [ctx Hsome].
  destruct (validOptions_cell options Hv) as [Hcw Hch].
  destruct (sampleWidth_valid canvas options Hv) as [Hc Hc0].
  destruct (sampleHeight_valid canvas options Hv) as [Hr Hr0].
  destruct (gridRows_shape canvas options Hs Hv) as [Hlen Hrows].
  exists (unlines (gridRows canvas options)).
  split; [exact (renderASCII_rows canvas options ctx Hsome Hcw Hch Hs)|].
  split; [|split; [|split; assumption]].
  - exists (gridRows canvas options). split; [reflexivity|]. split; [lia|].
    eapply Forall_impl; [|exact Hrows]. simpl. intros l (Hl & Hn & _).
    split; [lia | exact Hn].
  - apply splitLines_unlines.
    eapply Forall_impl; [|exact Hrows]. simpl. tauto.
Qed.

Lemma C2_rows_by_cols_block_witness :
  exists text,
    renderASCII (solidCanvas 25 30 opaqueWhite) defaultOptions = Normal text /\
    rectangularBlock text 2 2.
Proof.
  assert (validOptions defaultOptions) as Hv by (unfold validOptions; simpl; lia).
  assert (getContext (solidCanvas 25 30 opaqueWhite) <> None) as Hctx
    by discriminate.
  assert (storable (solidCanvas 25 30 opaqueWhite)) as Hs by reflexivity.
  destruct (C2_rows_by_cols_block (solidCanvas 25 30 opaqueWhite)
              defaultOptions Hctx Hs Hv) as (text & Ht & Hb & _).
  exists text. split; [exact Ht | exact Hb].
Defined.

(** ** C3: brightness and glyph index of a cell *)

(** C3: for every cell (x, y) of the grid of a readable frame (of fewer than
    2^45 pixels), with positive integer options, the data [renderASCII]
    reads for the cell is the charWidth by charHeight block of the frame at
    the cell's anchor; the brightness is the sum, accumulated over that
    block, of (0.299 R + 0.587 G + 0.114 B) * (alpha / 255), divided by
    charWidth * charHeight * 255; it lies in [0, 1]; the glyph index is
    floor(brightness * (rampLength - 1)), it lies in [0, rampLength - 1],
    and the glyph is the ramp character at that index. *)
Theorem C3_cell_brightness_and_index (canvas : HTMLCanvasElement)
  (options : ASCIIRenderOptions) (ctx : CanvasRenderingContext2D) (x y : Z) :
  getContext canvas = Some ctx -> storable canvas -> validOptions options ->
  0 <= x < sampleWidth canvas options ->
  0 <= y < sampleHeight canvas options ->
  let cw := orDefault (charWidth options) 10 in
  let ch := orDefault (charHeight options) 14 in
  let px := pixelAnchor x (Z.of_N (width canvas)) (sampleWidth canvas options) in
  let py := pixelAnchor y (Z.of_N (height canvas)) (sampleHeight canvas options) in
  let brightness :=
    fold_left (fun sum p => sum [+] luminance p)
      (framePixels canvas px py cw ch) 0%Q
    [/] (inject_Z cw [*] inject_Z ch [*] 255%Q) in
  getImageData ctx px py cw ch = Normal (framePixels canvas px py cw ch) /\
  (0 <= brightness <= 1)%Q /\
  cellIndex ctx canvas options x y
  = Normal (Qfloor (brightness [*] inject_Z (rampLength - 1))) /\
  0 <= Qfloor (brightness [*] inject_Z (rampLength - 1)) <= rampLength - 1 /\
  exists g,
    charAt ASCII_CHARS (Qfloor (brightness [*] inject_Z (rampLength - 1)))
    = Some g /\ rampGlyph g.
Proof.
  intros Hctx Hs Hv Hx Hy cw ch px py brightness.
  destruct (validOptions_cell options Hv) as [Hcw Hch].
  destruct (cell_block_inside canvas options Hcw Hch x y Hx Hy)
    as [[Hx0 Hx1] [Hy0 Hy1]].
  assert (0 <= brightness <= 1)%Q as Hb
    by exact (cellBrightness_bounds canvas options Hcw Hch x y Hs Hx Hy).
  pose proof (charIndexOf_bounds _ Hb) as Hi.
  destruct (charAt_ramp _ Hi) as [g [Hg _]].
  split.
  { rewrite getImageData_positive by assumption.
    now rewrite (imageRect_frame canvas ctx). }
  split; [exact Hb|].
  split; [exact (cellIndex_normal canvas options ctx Hctx Hcw Hch x y Hx Hy)|].
  split; [exact Hi|].
  exists g. split; [exact Hg | exact (charAt_rampGlyph _ _ Hg)].
Qed.

Lemma C3_cell_brightness_and_index_witness :
  cellIndex (mkContext 25 30 (fun _ _ => opaqueWhite))
    (solidCanvas 25 30 opaqueWhite) defaultOptions 1 1 = Normal 9.
Proof.
  assert (validOptions defaultOptions) as Hv by (unfold validOptions; simpl; lia).
  assert (storable (solidCanvas 25 30 opaqueWhite)) as Hs by reflexivity.
  destruct (C3_cell_brightness_and_index (solidCanvas 25 30 opaqueWhite)
              defaultOptions (mkContext 25 30 (fun _ _ => opaqueWhite)) 1 1
              eq_refl Hs Hv)
    as (_ & _ & Hc & _).
  - vm_compute. split; [discriminate | reflexivity].
  - vm_compute. split; [discriminate | reflexivity].
  - rewrite Hc. vm_compute. reflexivity.
Defined.

(** ** C5: monotonic brightness mapping *)

(** C5: for two cells of readable frames (or two renderings of one cell),
    whenever the brightness of the first is at most the brightness of the
    second, the glyph index [renderASCII] selects for the first is at most
    the index it selects for the second. *)
Theorem C5_glyph_index_monotonic
  (canvas1 canvas2 : HTMLCanvasElement)
  (options1 options2 : ASCIIRenderOptions)
  (ctx1 ctx2 : CanvasRenderingContext2D) (x1 y1 x2 y2 : Z) :
  getContext canvas1 = Some ctx1 -> getContext canvas2 = Some ctx2 ->
  validOptions options1 -> validOptions options2 ->
  0 <= x1 < sampleWidth canvas1 options1 ->
  0 <= y1 < sampleHeight canvas1 options1 ->
  0 <= x2 < sampleWidth canvas2 options2 ->
  0 <= y2 < sampleHeight canvas2 options2 ->
  (cellBrightness canvas1 options1 x1 y1
   <= cellBrightness canvas2 options2 x2 y2)%Q ->
  exists i1 i2,
    cellIndex ctx1 canvas1 options1 x1 y1 = Normal i1 /\
    cellIndex ctx2 canvas2 options2 x2 y2 = Normal i2 /\
    i1 <= i2.
Proof.
  intros Hc1 Hc2 Hv1 Hv2 Hx1 Hy1 Hx2 Hy2 Hle.
  destruct (validOptions_cell options1 Hv1) as [Hw1 Hh1].
  destruct (validOptions_cell options2 Hv2) as [Hw2 Hh2].
  exists (charIndexOf (cellBrightness canvas1 options1 x1 y1)),
         (charIndexOf (cellBrightness canvas2 options2 x2 y2)).
  split; [now apply cellIndex_normal|].
  split; [now apply cellIndex_normal|].
  apply charIndexOf_mono; [|exact Hle].
  now apply cellBrightness_nonneg.
Qed.

Lemma C5_glyph_index_monotonic_witness :
  exists i1 i2,
    cellIndex (mkContext 25 30 (fun _ _ => opaqueBlack))
      (solidCanvas 25 30 opaqueBlack) defaultOptions 0 1 = Normal i1 /\
    cellIndex (mkContext 25 30 (fun _ _ => opaqueWhite))
      (solidCanvas 25 30 opaqueWhite) defaultOptions 1 0 = Normal i2 /\
    i1 <= i2.
Proof.
  assert (validOptions defaultOptions) as Hv by (unfold validOptions; simpl; lia).
  apply (C5_glyph_index_monotonic
           (solidCanvas 25 30 opaqueBlack) (solidCanvas 25 30 opaqueWhite)
           defaultOptions defaultOptions
           (mkContext 25 30 (fun _ _ => opaqueBlack))
           (mkContext 25 30 (fun _ _ => opaqueWhite)) 0 1 1 0
           eq_refl eq_refl Hv Hv).
  - vm_compute. split; [discriminate | reflexivity].
  - vm_compute. split; [discriminate | reflexivity].
  - vm_compute. split; [discriminate | reflexivity].
  - vm_compute. split; [discriminate | reflexivity].
  - vm_compute. discriminate.
Defined.

(** ** C4: all-black and all-white frames *)

Lemma renderASCII_black (canvas : HTMLCanvasElement)
  (options : ASCIIRenderOptions) :
  getContext canvas <> None -> validOptions options ->
  uniformFrame canvas opaqueBlack ->
  renderASCII canvas options
  = Normal (solidBlock "@" (sampleWidth canvas options)
              (sampleHeight canvas options)).
Proof.
  intros Hctx Hv Hu. destruct (getContext_some canvas Hctx) as [ctx Hsome].
  destruct (validOptions_cell options Hv) as [Hcw Hch].
  apply (renderASCII_uniform canvas options ctx Hsome Hcw Hch 0);
    [|reflexivity].
  intros x y Hx Hy.
  rewrite (cellBrightness_uniform canvas options opaqueBlack Hcw Hch Hu x y Hx Hy).
  rewrite (charIndexOf_comp _ _ (blockBrightness_black _ _ _)).
  apply charIndexOf_zero.
Qed.

Lemma renderASCII_white (canvas : HTMLCanvasElement)
  (options : ASCIIRenderOptions) :
  getContext canvas <> None -> storable canvas -> validOptions options ->
  uniformFrame canvas opaqueWhite ->
  renderASCII canvas options
  = Normal (solidBlock " " (sampleWidth canvas options)
              (sampleHeight canvas options)).
Proof.
  intros Hctx Hs Hv Hu. destruct (getContext_some canvas Hctx) as [ctx Hsome].
  destruct (validOptions_cell options Hv) as [Hcw Hch].
  apply (renderASCII_uniform canvas options ctx Hsome Hcw Hch (rampLength - 1));
    [|reflexivity].
  intros x y Hx Hy.
  rewrite (cellBrightness_uniform canvas options opaqueWhite Hcw Hch Hu x y Hx Hy).
  rewrite (charIndexOf_comp _ 1).
  - apply charIndexOf_one.
  - apply blockBrightness_white; [exact Hcw | exact Hch |].
    exact (cell_area canvas options Hcw Hch x y Hs Hx Hy).
Qed.

(** C4: for a readable frame whose pixels are all black (luminance 0, alpha
    255) and positive integer options, every character of the grid
    [renderASCII] returns is the first character '@' of the ramp; for an
    all-white opaque frame (of fewer than 2^45 pixels) every character is the
    last, blank character; and the all-black 640 by 480 frame with
    charWidth 10, charHeight 14, maxWidth 64, maxHeight 34 yields 34 lines
    of 64 '@' each. *)
Theorem C4_black_and_white_frames :
  (forall canvas options,
      getContext canvas <> None -> validOptions options ->
      uniformFrame canvas opaqueBlack ->
      renderASCII canvas options
      = Normal (solidBlock "@" (sampleWidth canvas options)
                  (sampleHeight canvas options))) /\
  (forall canvas options,
      getContext canvas <> None -> storable canvas -> validOptions options ->
      uniformFrame canvas opaqueWhite ->
      renderASCII canvas options
      = Normal (solidBlock " " (sampleWidth canvas options)
                  (sampleHeight canvas options))) /\
  charAt ASCII_CHARS 0 = Some "@"%char /\
  charAt ASCII_CHARS (rampLength - 1) = Some " "%char /\
  renderASCII (solidCanvas 640 480 opaqueBlack) vgaOptions
  = Normal (repeatString 34
              (string_of_list_ascii (repeat "@"%char 64)
               ++ String newline EmptyString)).
Proof.
  split; [exact renderASCII_black|].
  split; [exact renderASCII_white|].
  split; [reflexivity|]. split; [reflexivity|].
  rewrite renderASCII_black.
  - unfold solidBlock. rewrite unlines_repeat. reflexivity.
  - discriminate.
  - unfold validOptions. simpl. lia.
  - intros x y _ _. reflexivity.
Qed.

Lemma C4_black_and_white_frames_witness :
  renderASCII (solidCanvas 25 30 opaqueWhite) defaultOptions
  = Normal (solidBlock " " 2 2).
Proof.
  apply (proj1 (proj2 C4_black_and_white_frames)
           (solidCanvas 25 30 opaqueWhite) defaultOptions).
  - discriminate.
  - reflexivity.
  - unfold validOptions. simpl. lia.
  - intros x y _ _. reflexivity.
Defined.

(** ** C7: unreadable bitmap *)

(** C7: when no drawing context can be obtained from the canvas,
    [renderASCII] returns the empty string, whatever the options, and does
    not throw. *)
Theorem C7_no_context_gives_empty_string (canvas : HTMLCanvasElement)
  (options : ASCIIRenderOptions) :
  getContext canvas = None -> renderASCII canvas options = Normal EmptyString.
Proof. intros H. unfold renderASCII. now rewrite H. Qed.

Lemma C7_no_context_gives_empty_string_witness :
  getContext lostContextCanvas = None /\
  renderASCII lostContextCanvas vgaOptions = Normal EmptyString.
Proof.
  split; [reflexivity|].
  apply (C7_no_context_gives_empty_string lostContextCanvas vgaOptions).
  reflexivity.
Defined.

(** ** C8: sampling a block never fails *)

(** C8: for every cell (x, y) of the grid of a readable frame, with positive
    integer options, reading the charWidth by charHeight block at the anchor
    (floor(x * width / cols), floor(y * height / rows)) succeeds and gives
    charWidth * charHeight pixels, so the cell has a glyph index; a read of
    such a block succeeds at any anchor, and a pixel outside the frame adds
    nothing to the brightness sum.  The blocks of the grid cells in fact lie
    inside the frame. *)
Theorem C8_block_sampling_total (canvas : HTMLCanvasElement)
  (options : ASCIIRenderOptions) (ctx : CanvasRenderingContext2D) (x y : Z) :
  getContext canvas = Some ctx -> validOptions options ->
  0 <= x < sampleWidth canvas options ->
  0 <= y < sampleHeight canvas options ->
  let cw := orDefault (charWidth options) 10 in
  let ch := orDefault (charHeight options) 14 in
  let px := pixelAnchor x (Z.of_N (width canvas)) (sampleWidth canvas options) in
  let py := pixelAnchor y (Z.of_N (height canvas)) (sampleHeight canvas options) in
  (exists data,
      getImageData ctx px py cw ch = Normal data /\
      Z.of_nat (List.length data) = cw * ch) /\
  (exists i, cellIndex ctx canvas options x y = Normal i) /\
  (forall sx sy, exists data,
      getImageData ctx sx sy cw ch = Normal data /\
      Z.of_nat (List.length data) = cw * ch) /\
  (forall u v, insideBitmap ctx u v = false ->
               (luminance (readPixel ctx u v) == 0)%Q) /\
  (0 <= px /\ px + cw <= Z.of_N (width canvas)) /\
  (0 <= py /\ py + ch <= Z.of_N (height canvas)).
Proof.
  intros Hctx Hv Hx Hy cw ch px py.
  destruct (validOptions_cell options Hv) as [Hcw Hch].
  assert (forall sx sy, exists data,
             getImageData ctx sx sy cw ch = Normal data /\
             Z.of_nat (List.length data) = cw * ch) as Hany.
  { intros sx sy. exists (imageRect ctx sx sy cw ch).
    split; [now apply getImageData_positive|].
    rewrite length_imageRect. subst cw ch. lia. }
  split; [apply Hany|].
  split.
  { eexists. now apply cellIndex_normal. }
  split; [exact Hany|].
  split; [apply readPixel_outside|].
  now apply cell_block_inside.
Qed.

Lemma C8_block_sampling_total_witness :
  exists i,
    cellIndex (mkContext 25 30 (fun _ _ => opaqueWhite))
      (solidCanvas 25 30 opaqueWhite) defaultOptions 1 1 = Normal i.
Proof.
  assert (validOptions defaultOptions) as Hv by (unfold validOptions; simpl; lia).
  refine (proj1 (proj2 (C8_block_sampling_total (solidCanvas 25 30 opaqueWhite)
              defaultOptions (mkContext 25 30 (fun _ _ => opaqueWhite)) 1 1
              eq_refl Hv _ _))).
  - vm_compute. split; [discriminate | reflexivity].
  - vm_compute. split; [discriminate | reflexivity].
Defined.

(** ** C10: the returned string *)

(** C10: for a readable frame (of fewer than 2^45 pixels) and positive
    integer options the string
    [renderASCII] returns is, for each of the rows grid rows in order, cols
    ramp glyphs followed by one newline; it has rows * (cols + 1)
    characters, exactly rows of them newlines, and when rows >= 1 it ends
    with a newline. *)
Theorem C10_rows_of_glyphs_and_newline (canvas : HTMLCanvasElement)
  (options : ASCIIRenderOptions) :
  getContext canvas <> None -> storable canvas -> validOptions options ->
  let cols := sampleWidth canvas options in
  let rows := sampleHeight canvas options in
  exists text,
    renderASCII canvas options = Normal text /\
    text = joined (map (fun l => (l ++ String newline EmptyString)%string)
                     (gridRows canvas options)) /\
    Z.of_nat (List.length (gridRows canvas options)) = rows /\
    Forall (fun l => Z.of_nat (String.length l) = cols /\
                     Forall rampGlyph (list_ascii_of_string l))
      (gridRows canvas options) /\
    Z.of_nat (String.length text) = rows * (cols + 1) /\
    Z.of_nat (countChar newline text) = rows /\
    (1 <= rows -> lastChar text = Some newline).
Proof.
  intros Hctx Hs Hv cols rows.
  destruct (getContext_some canvas Hctx) as [ctx Hsome].
  destruct (validOptions_cell options Hv) as [Hcw Hch].
  destruct (sampleWidth_valid canvas options Hv) as [_ Hc0].
  destruct (sampleHeight_valid canvas options Hv) as [_ Hr0].
  destruct (gridRows_shape canvas options Hs Hv) as [Hlen Hrows].
  exists (unlines (gridRows canvas options)).
  split; [exact (renderASCII_rows canvas options ctx Hsome Hcw Hch Hs)|].
  split; [apply unlines_joined|].
  split; [subst rows; lia|].
  split.
  { eapply Forall_impl; [|exact Hrows]. simpl. intros l (Hl & _ & Hg).
    split; [subst cols; lia | exact Hg]. }
  split.
  { rewrite (length_unlines _ (Z.to_nat cols)).
    - rewrite Hlen. subst cols rows. nia.
    - eapply Forall_impl; [|exact Hrows]. simpl. tauto. }
  split.
  { rewrite countChar_unlines.
    - subst rows. lia.
    - eapply Forall_impl; [|exact Hrows]. simpl. tauto. }
  intros Hrows1. apply lastChar_unlines.
  intros Hnil. rewrite Hnil in Hlen. simpl in Hlen. subst rows. lia.
Qed.

Lemma C10_rows_of_glyphs_and_newline_witness :
  exists text,
    renderASCII (solidCanvas 25 30 opaqueWhite) defaultOptions = Normal text /\
    Z.of_nat (String.length text) = 2 * (2 + 1).
Proof.
  assert (validOptions defaultOptions) as Hv by (unfold validOptions; simpl; lia).
  assert (getContext (solidCanvas 25 30 opaqueWhite) <> None) as Hctx
    by discriminate.
  assert (storable (solidCanvas 25 30 opaqueWhite)) as Hs by reflexivity.
  destruct (C10_rows_of_glyphs_and_newline (solidCanvas 25 30 opaqueWhite)
              defaultOptions Hctx Hs Hv) as (text & Ht & _ & _ & _ & Hlen & _).
  exists text. split; [exact Ht | exact Hlen].
Defined.

(** ** C6: getOptimalSettings *)

(** C6, as stated, fails: for the positive sizes 5 by 5 the settings of
    [getOptimalSettings] give [renderASCII] a grid with no column and no
    row. *)
Lemma C6_empty_grid_for_small_canvas :
  0 < 5 /\
  ~ (1 <= sampleWidth tinyCanvas
            (getOptimalSettings (Z.of_N (width tinyCanvas))
               (Z.of_N (height tinyCanvas))) /\
     1 <= sampleHeight tinyCanvas
            (getOptimalSettings (Z.of_N (width tinyCanvas))
               (Z.of_N (height tinyCanvas)))).
Proof.
  split; [lia|]. intros [H _]. vm_compute in H. apply H. reflexivity.
Qed.

Lemma scaled_floor_below (k m bound limit : Z) :
  0 <= k -> 0 <= m <= bound ->
  Qfloor (inject_Z k [*] (inject_Z bound [/] 1000)) <= limit ->
  Qfloor (inject_Z k [*] (inject_Z m [/] 1000)) <= limit.
Proof.
  intros Hk [Hm0 Hm1] Hb.
  apply Z.le_trans with (Qfloor (inject_Z k [*] (inject_Z bound [/] 1000)));
    [|exact Hb].
  assert (0 <= inject_Z k)%Q as HkQ
    by (change 0%Q with (inject_Z 0); now rewrite <- Zle_Qle).
  assert (0 <= inject_Z m)%Q as HmQ
    by (change 0%Q with (inject_Z 0); now rewrite <- Zle_Qle).
  apply Qfloor_resp_le. apply mul_mono.
  - exact HkQ.
  - apply Qle_refl.
  - apply div_nonneg; [exact HmQ | reflexivity].
  - apply div_mono; [exact HmQ | now rewrite <- Zle_Qle | reflexivity].
Qed.

(** C6 (amended): with the settings [getOptimalSettings] returns for its own
    size, a canvas gets at least one column exactly when its width is at
    least 12 and at least the derived charWidth = max(8, floor(10 * scale)),
    and at least one row exactly when its height is at least 16 and at least
    the derived charHeight = max(12, floor(14 * scale)), where
    scale = max(width, height) / 1000; the grid is never negative and is
    empty for a smaller canvas.  While the longer side is at most 799
    (resp. 857) the derived charWidth is 8 (resp. charHeight is 12). *)
Theorem C6_optimal_settings_grid (canvas : HTMLCanvasElement) :
  let w := Z.of_N (width canvas) in
  let h := Z.of_N (height canvas) in
  let settings := getOptimalSettings w h in
  let cw := orDefault (charWidth settings) 10 in
  let ch := orDefault (charHeight settings) 14 in
  8 <= cw /\ 12 <= ch /\
  (1 <= sampleWidth canvas settings <-> 12 <= w /\ cw <= w) /\
  (1 <= sampleHeight canvas settings <-> 16 <= h /\ ch <= h) /\
  0 <= sampleWidth canvas settings /\
  0 <= sampleHeight canvas settings /\
  (Z.max w h <= 799 -> cw = 8) /\
  (Z.max w h <= 857 -> ch = 12).
Proof.
  intros w h settings cw ch.
  assert (0 <= w) as Hw by (subst w; lia).
  assert (0 <= h) as Hh by (subst h; lia).
  assert (8 <= cw) as Hcw by (subst cw settings; simpl; lia).
  assert (12 <= ch) as Hch by (subst ch settings; simpl; lia).
  assert (sampleWidth canvas settings = sampleSize (w / 12) w cw) as Ew
    by reflexivity.
  assert (sampleHeight canvas settings = sampleSize (h / 16) h ch) as Eh
    by reflexivity.
  pose proof (Z.div_pos w 12 Hw ltac:(lia)) as Hw12.
  pose proof (Z.div_pos h 16 Hh ltac:(lia)) as Hh16.
  rewrite Ew, Eh.
  split; [exact Hcw|]. split; [exact Hch|].
  split; [|split; [|split; [|split; [|split]]]].
  - rewrite (sampleSize_ge_1 (w / 12) w cw) by lia.
    assert (1 <= w / 12 <-> 12 <= w) as ->; [|tauto].
    split; intros H.
    + pose proof (Z.mul_div_le w 12 ltac:(lia)). lia.
    + apply Z.div_le_lower_bound; lia.
  - rewrite (sampleSize_ge_1 (h / 16) h ch) by lia.
    assert (1 <= h / 16 <-> 16 <= h) as ->; [|tauto].
    split; intros H.
    + pose proof (Z.mul_div_le h 16 ltac:(lia)). lia.
    + apply Z.div_le_lower_bound; lia.
  - apply sampleSize_nonneg; lia.
  - apply sampleSize_nonneg; lia.
  - intros Hm. subst cw settings. cbn [getOptimalSettings charWidth orDefault].
    assert (Qfloor (inject_Z 10 [*] (inject_Z (Z.max w h) [/] 1000)) <= 7) as H7.
    { apply (scaled_floor_below 10 (Z.max w h) 799 7); [lia | lia |].
      vm_compute. discriminate. }
    change (inject_Z 10) with 10%Q in H7. lia.
  - intros Hm. subst ch settings. cbn [getOptimalSettings charHeight orDefault].
    assert (Qfloor (inject_Z 14 [*] (inject_Z (Z.max w h) [/] 1000)) <= 11) as H11.
    { apply (scaled_floor_below 14 (Z.max w h) 857 11); [lia | lia |].
      vm_compute. discriminate. }
    change (inject_Z 14) with 14%Q in H11. lia.
Qed.

Lemma C6_optimal_settings_grid_witness :
  orDefault (charWidth (getOptimalSettings 640 480)) 10 = 8 /\
  orDefault (charHeight (getOptimalSettings 640 480)) 14 = 12 /\
  1 <= sampleWidth (solidCanvas 640 480 opaqueBlack) (getOptimalSettings 640 480).
Proof.
  destruct (C6_optimal_settings_grid (solidCanvas 640 480 opaqueBlack))
    as (_ & _ & Hcols & _ & _ & _ & Hcw & Hch).
  assert (Z.max 640 480 <= 799) as H799 by (vm_compute; discriminate).
  assert (Z.max 640 480 <= 857) as H857 by (vm_compute; discriminate).
  split; [exact (Hcw H799)|]. split; [exact (Hch H857)|].
  apply Hcols. split; vm_compute; discriminate.
Defined.

(** ** C9: the detection throttle *)

Import FrameLoop.

Lemma processFrame_calls (s : LoopState) (t : Tick) :
  (detectorCalls (processFrame s t) = detectorCalls s /\
   (frameCount (processFrame s t) = frameCount s \/
    frameCount (processFrame s t) = frameCount s + 1 \/
    frameCount (processFrame s t) = 0 /\ isLoading t = true))
  \/
  (detectorCalls (processFrame s t) = S (detectorCalls s) /\
   frameCount (processFrame s t) = 0 /\
   detectionInterval <= frameCount s + 1 /\
   videoTick t = true /\ isLoading t = false).
Proof.
  unfold processFrame, videoTick.
  destruct (surfacesReady t); simpl; [|left; auto].
  destruct (asciiBranch t); simpl; [left; auto|].
  destruct (outputDrawn t); simpl; [|left; auto].
  destruct (detectionInterval <=? frameCount s + 1) eqn:E.
  - apply Z.leb_le in E.
    destruct (isLoading t); [left; simpl; auto|].
    destruct (detections t); right; simpl; auto.
  - destruct (faceDetection s); left; simpl; auto.
Qed.

Lemma processFrame_other (s : LoopState) (t : Tick) :
  videoTick t = false -> processFrame s t = s.
Proof.
  unfold processFrame, videoTick.
  destruct (surfacesReady t); simpl; [|reflexivity].
  destruct (asciiBranch t); simpl; [reflexivity|].
  destruct (outputDrawn t); simpl; [discriminate | reflexivity].
Qed.

Lemma processFrame_below_interval (s : LoopState) (t : Tick) :
  frameCount s + 1 < detectionInterval ->
  detectorCalls (processFrame s t) = detectorCalls s /\
  frameCount (processFrame s t) <= frameCount s + 1.
Proof.
  intros Hlt. unfold processFrame.
  destruct (surfacesReady t); simpl; [|lia].
  destruct (asciiBranch t); simpl; [lia|].
  destruct (outputDrawn t); simpl; [|lia].
  destruct (detectionInterval <=? frameCount s + 1) eqn:E;
    [apply Z.leb_le in E; lia|].
  destruct (faceDetection s); simpl; lia.
Qed.

Lemma run_cons (s : LoopState) (t : Tick) (ticks : list Tick) :
  run s (t :: ticks) = run (processFrame s t) ticks.
Proof. reflexivity. Qed.

Lemma videoCount_cons (t : Tick) (ticks : list Tick) :
  videoCount (t :: ticks)
  = ((if videoTick t then 1 else 0) + videoCount ticks)%nat.
Proof. unfold videoCount. simpl. now destruct (videoTick t). Qed.

Lemma run_below_interval (ticks : list Tick) (s : LoopState) :
  frameCount s + Z.of_nat (videoCount ticks) < detectionInterval ->
  detectorCalls (run s ticks) = detectorCalls s.
Proof.
  revert s. induction ticks as [|t ticks IH]; intros s Hlt; [reflexivity|].
  rewrite run_cons. rewrite videoCount_cons in Hlt.
  destruct (videoTick t) eqn:Hv.
  - destruct (processFrame_below_interval s t) as [Hc Hf]; [lia|].
    rewrite IH by lia. exact Hc.
  - rewrite (processFrame_other s t Hv). apply IH. simpl in Hlt. lia.
Qed.

Lemma run_at_most_one_call (ticks : list Tick) (s : LoopState) :
  Z.of_nat (videoCount ticks) <= detectionInterval ->
  (detectorCalls (run s ticks) <= S (detectorCalls s))%nat.
Proof.
  revert s. induction ticks as [|t ticks IH]; intros s Hlen.
  - simpl. lia.
  - rewrite run_cons. rewrite videoCount_cons in Hlen.
    destruct (videoTick t) eqn:Hv.
    + destruct (processFrame_calls s t) as [[Hc _] | (Hc & Hf & _)].
      * specialize (IH (processFrame s t)). rewrite Hc in IH. apply IH. lia.
      * rewrite run_below_interval by (rewrite Hf; lia). lia.
    + rewrite (processFrame_other s t Hv). apply IH. simpl in Hlen. lia.
Qed.

Lemma processFrame_skipped (s : LoopState) (t : Tick) :
  detectorCalls (processFrame s t) = detectorCalls s ->
  faceDetection (processFrame s t) = faceDetection s /\
  (videoTick t = true -> frameCount s + 1 < detectionInterval ->
   faceDetected (processFrame s t) = faceDetected s || faceDetection s).
Proof.
  unfold processFrame, videoTick.
  destruct (surfacesReady t); simpl; [|intros _; split; [reflexivity | discriminate]].
  destruct (asciiBranch t); simpl; [intros _; split; [reflexivity | discriminate]|].
  destruct (outputDrawn t); simpl; [|intros _; split; [reflexivity | discriminate]].
  destruct (detectionInterval <=? frameCount s + 1) eqn:E.
  - apply Z.leb_le in E.
    destruct (isLoading t); [simpl; intros _; split; [reflexivity | lia]|].
    destruct (detections t); simpl; intros H; lia.
  - destruct (faceDetection s) eqn:F; simpl; intros _;
      (split; [reflexivity | intros _ _]).
    + now rewrite orb_true_r.
    + now rewrite orb_false_r.
Qed.


(** C9: over any stretch of ticks of the frame loop with at most 10
    video-branch ticks (so over any 10 consecutive video-branch ticks), from
    any state of the loop, the face detector is called at most once; and on a
    tick that does not call it the stored detection result is kept, a
    video-branch tick below the interval showing that stored result again
    instead of detecting. *)
Theorem C9_detection_throttled (s : LoopState) (ticks : list Tick) :
  (videoCount ticks <= 10)%nat ->
  (detectorCalls (run s ticks) <= detectorCalls s + 1)%nat /\
  (forall s' t,
      detectorCalls (processFrame s' t) = detectorCalls s' ->
      faceDetection (processFrame s' t) = faceDetection s' /\
      (videoTick t = true -> frameCount s' + 1 < detectionInterval ->
       faceDetected (processFrame s' t)
       = faceDetected s' || faceDetection s')).
Proof.
  intros Hlen. split.
  - pose proof (run_at_most_one_call ticks s) as H.
    unfold detectionInterval in H. lia.
  - exact processFrame_skipped.
Qed.

Lemma C9_detection_throttled_witness :
  (videoCount (repeat faceTick 10) <= 10)%nat /\
  (detectorCalls (run initial (repeat faceTick 10)) <= 0 + 1)%nat.
Proof.
  assert (videoCount (repeat faceTick 10) <= 10)%nat as H
    by (vm_compute; lia).
  split; [exact H|].
  exact (proj1 (C9_detection_throttled initial (repeat faceTick 10) H)).
Defined.

(** ** Sample blocks: the rounding model, binary64 and exact arithmetic *)

(** The weights are the binary64 values of the literals. *)
Lemma weights_binary64 :
  (weightRed == inject_Z 5386305154335113 * 2 ^ (-54))%Q /\
  (weightGreen == inject_Z 5287225962532962 * 2 ^ (-53))%Q /\
  (weightBlue == inject_Z 8214565720323785 * 2 ^ (-56))%Q /\
  Binary64.decimal 299 1000 = S754_finite false 5386305154335113 (-54) /\
  Binary64.decimal 587 1000 = S754_finite false 5287225962532962 (-53) /\
  Binary64.decimal 114 1000 = S754_finite false 8214565720323785 (-56).
Proof. vm_compute. repeat split. Qed.

(** On every pixel of the pattern block and on every sample block the
    rounding model and the [spec_float] operations give the same value. *)
Lemma luminance_agrees_with_binary64 :
  Forall (fun p => (luminance p == Binary64.toQ (Binary64.luminance p))%Q)
    patternBlock.
Proof.
  apply Forall_forall. intros p Hp. apply Qeq_bool_iff.
  revert p Hp. apply forallb_forall. vm_compute. reflexivity.
Qed.

Lemma blockBrightness_agrees_with_binary64 :
  Forall (fun data =>
            (blockBrightness data 10 14
             == Binary64.toQ (Binary64.blockBrightness data 10 14))%Q /\
            Binary64.charIndexOf (Binary64.blockBrightness data 10 14)
            = Some (charIndexOf (blockBrightness data 10 14)))
    sampleBlocks /\
  map (fun data => charIndexOf (blockBrightness data 10 14)) sampleBlocks
  = [9; 2; 3].
Proof.
  assert ((forallb
             (fun data =>
                Qeq_bool (blockBrightness data 10 14)
                  (Binary64.toQ (Binary64.blockBrightness data 10 14))
                && match Binary64.charIndexOf
                           (Binary64.blockBrightness data 10 14) with
                   | Some i => i =? charIndexOf (blockBrightness data 10 14)
                   | None => false
                   end)
             sampleBlocks,
           map (fun data => charIndexOf (blockBrightness data 10 14))
             sampleBlocks)
          = (true, [9; 2; 3])) as H by (vm_compute; reflexivity).
  apply pair_equal_spec in H. destruct H as [Hall Hidx].
  split; [|exact Hidx].
  apply Forall_forall. intros data Hd.
  rewrite forallb_forall in Hall. specialize (Hall data Hd).
  apply andb_prop in Hall. destruct Hall as [H1 H2]. clear Hidx. split.
  - apply Qeq_bool_iff. exact H1.
  - destruct (Binary64.charIndexOf (Binary64.blockBrightness data 10 14));
      [|discriminate H2]. apply Z.eqb_eq in H2. rewrite H2. reflexivity.
Qed.

(** The rounding is part of the behaviour: a pixel of the colour
    (6, 140, 9) has brightness 1/3 in exact arithmetic, which selects glyph
    3, and a rounded brightness just below, which selects glyph 2. *)
Lemma rounding_decides_the_glyph :
  charIndexOf (blockBrightness [leafGreen] 1 1) = 2 /\
  Binary64.charIndexOf (Binary64.blockBrightness [leafGreen] 1 1) = Some 2 /\
  (exactBrightness [leafGreen] 1 1 == 1 # 3)%Q /\
  Qfloor (exactBrightness [leafGreen] 1 1 * 9) = 3.
Proof. vm_compute. repeat split. Qed.

(** * Further properties of the renderer *)

(** ** The blocks of the grid *)





(** ** A cell extent of zero *)

Lemma forLoop_throws {S : Type} (n : nat) (i : Z)
  (body : Z -> S -> completion S) (s : S) (e : DOMException) :
  body i s = Throw e -> forLoop (Datatypes.S n) i body s = Throw e.
Proof. intros H. cbn [forLoop]. now rewrite H. Qed.

(** X2.  When [charWidth] or [charHeight] is 0 and the grid has a cell,
    [renderASCII] does not return: [getImageData] raises [IndexSizeError]
    at the first cell. *)
Theorem zero_cell_extent_throws
  (canvas : HTMLCanvasElement) (options : ASCIIRenderOptions) :
  getContext canvas <> None ->
  orDefault (charWidth options) 10 = 0
  \/ orDefault (charHeight options) 14 = 0 ->
  1 <= sampleWidth canvas options ->
  1 <= sampleHeight canvas options ->
  renderASCII canvas options = Throw IndexSizeError.
Proof.
  intros Hctx Hzero Hcols Hrows.
  destruct (getContext_some canvas Hctx) as [ctx Hsome].
  unfold renderASCII. rewrite Hsome.
  destruct (Z.to_nat (sampleHeight canvas options)) as [|rows] eqn:Er; [lia|].
  destruct (Z.to_nat (sampleWidth canvas options)) as [|cols] eqn:Ec; [lia|].
  apply forLoop_throws.
  rewrite (forLoop_throws cols 0 _ EmptyString IndexSizeError); [reflexivity|].
  unfold cellIndex, getImageData.
  destruct Hzero as [-> | ->]; [reflexivity|].
  now rewrite orb_true_r.
Qed.

Lemma zero_cell_extent_throws_witness :
  renderASCII (gradientCanvas 640 480)
    (mkOptions (Some 0) None (Some 80) None)
  = Throw IndexSizeError.
Proof.
  apply zero_cell_extent_throws.
  - discriminate.
  - left. reflexivity.
  - vm_compute. discriminate.
  - vm_compute. discriminate.
Defined.

(** ** A frame narrower than one cell *)

Lemma map_const_repeat {A B : Type} (b : B) (l : list A) :
  map (fun _ => b) l = repeat b (List.length l).
Proof. induction l as [|a l IH]; simpl; [reflexivity | now rewrite IH]. Qed.

(** X3.  A frame narrower than one cell has no column, yet every row of
    the grid still gives its newline: the text is [rows] newline
    characters, not the empty string. *)
Theorem narrow_frame_gives_bare_newlines
  (canvas : HTMLCanvasElement) (options : ASCIIRenderOptions) :
  getContext canvas <> None ->
  validOptions options ->
  Z.of_N (width canvas) < orDefault (charWidth options) 10 ->
  renderASCII canvas options
  = Normal (repeatString (Z.to_nat (sampleHeight canvas options))
              (String newline EmptyString)).
Proof.
  intros Hctx Hv Hnarrow.
  destruct (getContext_some canvas Hctx) as [ctx Hsome].
  destruct (validOptions_cell options Hv) as [Hcw Hch].
  assert (sampleWidth canvas options = 0) as Hcols.
  { destruct (sampleWidth_valid canvas options Hv) as [-> _].
    rewrite Z.div_small by lia.
    destruct Hv as (_ & _ & Hmw & _). lia. }
  rewrite (renderASCII_rows_with canvas options ctx Hsome Hcw Hch)
    by (intros x y Hx Hy; lia).
  f_equal. unfold gridRows, gridRow. rewrite Hcols. simpl.
  rewrite map_const_repeat, length_range.
  apply (unlines_repeat EmptyString).
Qed.

Lemma narrow_frame_gives_bare_newlines_witness :
  renderASCII (gradientCanvas 6 200) defaultOptions
  = Normal (repeatString
              (Z.to_nat (sampleHeight (gradientCanvas 6 200) defaultOptions))
              (String newline EmptyString)).
Proof.
  apply narrow_frame_gives_bare_newlines.
  - discriminate.
  - vm_compute. repeat split.
  - vm_compute. reflexivity.
Defined.

(** ** The size of the text *)

(** X4.  The limits bound the text: with positive integer options the
    grid has at most [maxWidth] columns and [maxHeight] rows, its cells
    fit side by side in the frame, and the text returned has at most
    [maxHeight * (maxWidth + 1)] characters (6060 with the defaults). *)
Theorem text_size_within_limits
  (canvas : HTMLCanvasElement) (options : ASCIIRenderOptions) (text : string) :
  validOptions options ->
  storable canvas ->
  renderASCII canvas options = Normal text ->
  sampleWidth canvas options <= orDefault (maxWidth options) 100 /\
  sampleHeight canvas options <= orDefault (maxHeight options) 60 /\
  sampleWidth canvas options * orDefault (charWidth options) 10
  <= Z.of_N (width canvas) /\
  sampleHeight canvas options * orDefault (charHeight options) 14
  <= Z.of_N (height canvas) /\
  Z.of_nat (String.length text)
  <= orDefault (maxHeight options) 60 * (orDefault (maxWidth options) 100 + 1).
Proof.
  intros Hv Hs Hrun.
  destruct (validOptions_cell options Hv) as [Hcw Hch].
  destruct (sampleWidth_valid canvas options Hv) as [Ew Hw0].
  destruct (sampleHeight_valid canvas options Hv) as [Eh Hh0].
  assert (sampleWidth canvas options <= orDefault (maxWidth options) 100)
    as Hcols by lia.
  assert (sampleHeight canvas options <= orDefault (maxHeight options) 60)
    as Hrows by lia.
  split; [exact Hcols|]. split; [exact Hrows|].
  split; [apply sampleSize_fits; exact Hcw|].
  split; [apply sampleSize_fits; exact Hch|].
  destruct Hv as (_ & _ & Hmw & Hmh).
  destruct (getContext canvas) as [ctx|] eqn:Hctx.
  - rewrite (renderASCII_rows canvas options ctx Hctx Hcw Hch Hs) in Hrun.
    injection Hrun as <-.
    assert (validOptions options) as Hv by (repeat split; assumption).
    destruct (gridRows_shape canvas options Hs Hv) as [Hlen Hall].
    rewrite (length_unlines _ (Z.to_nat (sampleWidth canvas options)))
      by (eapply Forall_impl; [|exact Hall]; simpl; tauto).
    rewrite Hlen. nia.
  - unfold renderASCII in Hrun. rewrite Hctx in Hrun.
    injection Hrun as <-. simpl. nia.
Qed.

Lemma text_size_within_limits_witness :
  let canvas := solidCanvas 4 4 opaqueBlack in
  let options := mkOptions (Some 2) (Some 2) (Some 3) (Some 3) in
  sampleWidth canvas options <= 3 /\
  sampleHeight canvas options <= 3 /\
  sampleWidth canvas options * 2 <= 4 /\
  sampleHeight canvas options * 2 <= 4 /\
  Z.of_nat (String.length (solidBlock "@" 2 2)) <= 3 * (3 + 1).
Proof.
  apply (text_size_within_limits (solidCanvas 4 4 opaqueBlack)
           (mkOptions (Some 2) (Some 2) (Some 3) (Some 3))
           (solidBlock "@" 2 2)).
  - vm_compute. repeat split.
  - vm_compute. reflexivity.
  - vm_compute. reflexivity.
Defined.

(** ** Transparent frames *)

Lemma luminance_transparent (p : RGBA) :
  alpha p = x00 -> (luminance p == 0)%Q.
Proof.
  intros Ha. unfold luminance. rewrite Ha.
  generalize (weightRed [*] channel (red p) [+] weightGreen [*] channel (green p)
              [+] weightBlue [*] channel (blue p)).
  intros l.
  assert (channel x00 [/] 255 == 0)%Q as -> by (vm_compute; reflexivity).
  unfold Number.mul. rewrite Qmult_0_r. reflexivity.
Qed.

Lemma blockBrightness_dark (data : list RGBA) (cw ch : Z) :
  Forall (fun p => (luminance p == 0)%Q) data ->
  (blockBrightness data cw ch == 0)%Q.
Proof.
  intros Hall. unfold blockBrightness, accumulate.
  rewrite (accumulate_from_zero data 0%Q Hall) by reflexivity.
  unfold Number.div, Qdiv. now rewrite Qmult_0_l.
Qed.

Lemma framePixels_Forall (P : RGBA -> Prop) (canvas : HTMLCanvasElement)
  (px py cw ch : Z) :
  (forall u v,
      0 <= u < Z.of_N (width canvas) -> 0 <= v < Z.of_N (height canvas) ->
      P (bitmap canvas u v)) ->
  0 <= px -> px + cw <= Z.of_N (width canvas) ->
  0 <= py -> py + ch <= Z.of_N (height canvas) ->
  Forall P (framePixels canvas px py cw ch).
Proof.
  intros HP Hx0 Hx1 Hy0 Hy1. unfold framePixels.
  apply Forall_forall. intros q Hq.
  apply in_flat_map in Hq. destruct Hq as [dy [Hdy Hq]].
  apply in_map_iff in Hq. destruct Hq as [dx [<- Hdx]].
  apply in_range in Hdy. apply in_range in Hdx.
  apply HP; lia.
Qed.

(** X5.  A frame whose pixels all have alpha 0 renders as the densest
    glyph ['@'] in every cell, whatever its colour channels hold: a
    transparent frame is drawn like a black one. *)
Theorem transparent_frame_renders_as_black
  (canvas : HTMLCanvasElement) (options : ASCIIRenderOptions) :
  getContext canvas <> None ->
  0 < orDefault (charWidth options) 10 ->
  0 < orDefault (charHeight options) 14 ->
  (forall u v,
      0 <= u < Z.of_N (width canvas) -> 0 <= v < Z.of_N (height canvas) ->
      alpha (bitmap canvas u v) = x00) ->
  renderASCII canvas options
  = Normal (solidBlock "@" (sampleWidth canvas options)
              (sampleHeight canvas options)).
Proof.
  intros Hctx Hcw Hch Halpha.
  destruct (getContext_some canvas Hctx) as [ctx Hsome].
  apply (renderASCII_uniform canvas options ctx Hsome Hcw Hch 0);
    [|reflexivity].
  intros x y Hx Hy.
  destruct (cell_block_inside canvas options Hcw Hch x y Hx Hy)
    as [[Hx0 Hx1] [Hy0 Hy1]].
  rewrite <- charIndexOf_zero. apply charIndexOf_comp.
  unfold cellBrightness. apply blockBrightness_dark.
  apply framePixels_Forall; try assumption.
  intros u v Hu Hv. apply luminance_transparent, Halpha; assumption.
Qed.

Lemma transparent_frame_renders_as_black_witness :
  let canvas := solidCanvas 640 480 (mkRGBA xff x80 x10 x00) in
  renderASCII canvas defaultOptions
  = Normal (solidBlock "@" (sampleWidth canvas defaultOptions)
              (sampleHeight canvas defaultOptions)).
Proof.
  apply (transparent_frame_renders_as_black
           (solidCanvas 640 480 (mkRGBA xff x80 x10 x00)) defaultOptions).
  - discriminate.
  - reflexivity.
  - reflexivity.
  - intros u v _ _. reflexivity.
Defined.

(** ** Brighter frames *)

Lemma Forall2_map_same {A B : Type} (R : B -> B -> Prop) (f g : A -> B)
  (l : list A) :
  (forall a, In a l -> R (f a) (g a)) -> Forall2 R (map f l) (map g l).
Proof.
  induction l as [|a l IH]; simpl; intros H; constructor.
  - apply H. now left.
  - apply IH. intros b Hb. apply H. now right.
Qed.

Lemma Forall2_flat_map_same {A B : Type} (R : B -> B -> Prop)
  (f g : A -> list B) (l : list A) :
  (forall a, In a l -> Forall2 R (f a) (g a)) ->
  Forall2 R (flat_map f l) (flat_map g l).
Proof.
  induction l as [|a l IH]; simpl; intros H; [constructor|].
  apply Forall2_app.
  - apply H. now left.
  - apply IH. intros b Hb. apply H. now right.
Qed.

Lemma channel_le (a b : byte) :
  (Byte.to_N a <= Byte.to_N b)%N -> (channel a <= channel b)%Q.
Proof. intros H. unfold channel. rewrite <- Zle_Qle. lia. Qed.

Lemma luminance_dimmer (p q : RGBA) :
  dimmer p q -> (luminance p <= luminance q)%Q.
Proof.
  intros (Hr & Hg & Hb & Ha).
  apply luminance_mono; apply channel_le; assumption.
Qed.

Lemma accumulate_from_mono (dataA dataB : list RGBA) (a b : Q) :
  Forall2 (fun p q => (luminance p <= luminance q)%Q) dataA dataB ->
  (0 <= a)%Q -> (a <= b)%Q ->
  (fold_left (fun brightness p => brightness [+] luminance p) dataA a
   <= fold_left (fun brightness p => brightness [+] luminance p) dataB b)%Q.
Proof.
  intros Hall. revert a b.
  induction Hall as [|p q dataA dataB Hpq _ IH]; intros a b Ha Hab;
    [exact Hab|].
  simpl. apply IH.
  - apply add_nonneg; [exact Ha | apply luminance_nonneg].
  - apply add_mono; [exact Ha | exact Hab | apply luminance_nonneg | exact Hpq].
Qed.

Lemma blockBrightness_mono (dataA dataB : list RGBA) (cw ch : Z) :
  0 <= cw -> 0 <= ch ->
  Forall2 (fun p q => (luminance p <= luminance q)%Q) dataA dataB ->
  (blockBrightness dataA cw ch <= blockBrightness dataB cw ch)%Q.
Proof.
  intros Hw Hh Hall. unfold blockBrightness, accumulate.
  assert (0 <= / (inject_Z cw [*] inject_Z ch [*] 255))%Q as Hinv.
  { apply Qinv_le_0_compat.
    apply mul_nonneg; [apply mul_nonneg|]; try discriminate;
      change 0%Q with (inject_Z 0); rewrite <- Zle_Qle; assumption. }
  unfold Number.div, Qdiv. apply round_mono.
  - apply Qmult_le_0_compat; [|exact Hinv].
    apply accumulate_from_nonneg, Qle_refl.
  - apply Qmult_le_compat_r; [|exact Hinv].
    apply accumulate_from_mono; [exact Hall | apply Qle_refl | apply Qle_refl].
Qed.

(** X6.  Brightening a frame never moves a glyph towards the dense end of
    the ramp: if every pixel of frame [A] is at most the pixel of frame [B]
    at the same place in each of R, G, B and alpha, every cell of [A] gets
    a glyph index at most that of the same cell of [B].  The rounding of
    the floating-point sum does not disturb the order. *)
Theorem brighter_frame_gives_lighter_glyphs
  (A B : HTMLCanvasElement) (options : ASCIIRenderOptions)
  (ctxA ctxB : CanvasRenderingContext2D) (x y : Z) :
  getContext A = Some ctxA -> getContext B = Some ctxB ->
  width A = width B -> height A = height B ->
  0 < orDefault (charWidth options) 10 ->
  0 < orDefault (charHeight options) 14 ->
  (forall u v,
      0 <= u < Z.of_N (width A) -> 0 <= v < Z.of_N (height A) ->
      dimmer (bitmap A u v) (bitmap B u v)) ->
  0 <= x < sampleWidth A options ->
  0 <= y < sampleHeight A options ->
  exists iA iB,
    cellIndex ctxA A options x y = Normal iA /\
    cellIndex ctxB B options x y = Normal iB /\
    iA <= iB.
Proof.
  intros HA HB Hw Hh Hcw Hch Hdim Hx Hy.
  assert (sampleWidth B options = sampleWidth A options) as Ecols
    by (unfold sampleWidth; now rewrite Hw).
  assert (sampleHeight B options = sampleHeight A options) as Erows
    by (unfold sampleHeight; now rewrite Hh).
  exists (charIndexOf (cellBrightness A options x y)),
         (charIndexOf (cellBrightness B options x y)).
  split; [apply (cellIndex_normal A options ctxA HA Hcw Hch); assumption|].
  split; [apply (cellIndex_normal B options ctxB HB Hcw Hch);
          rewrite ?Ecols, ?Erows; assumption|].
  apply charIndexOf_mono; [apply cellBrightness_nonneg; assumption|].
  destruct (cell_block_inside A options Hcw Hch x y Hx Hy)
    as [[Hx0 Hx1] [Hy0 Hy1]].
  unfold cellBrightness. rewrite Ecols, Erows, <- Hw, <- Hh.
  apply blockBrightness_mono; [lia | lia |].
  unfold framePixels.
  apply Forall2_flat_map_same. intros dy Hdy. apply in_range in Hdy.
  apply Forall2_map_same. intros dx Hdx. apply in_range in Hdx.
  apply luminance_dimmer, Hdim; lia.
Qed.

Lemma brighter_frame_gives_lighter_glyphs_witness :
  let A := solidCanvas 640 480 leafGreen in
  let B := solidCanvas 640 480 opaqueWhite in
  exists iA iB,
    cellIndex (mkContext 640 480 (bitmap A)) A defaultOptions 5 7 = Normal iA /\
    cellIndex (mkContext 640 480 (bitmap B)) B defaultOptions 5 7 = Normal iB /\
    iA <= iB.
Proof.
  apply (brighter_frame_gives_lighter_glyphs
           (solidCanvas 640 480 leafGreen) (solidCanvas 640 480 opaqueWhite)
           defaultOptions).
  - reflexivity.
  - reflexivity.
  - reflexivity.
  - reflexivity.
  - reflexivity.
  - reflexivity.
  - intros u v _ _. vm_compute. repeat split; discriminate.
  - vm_compute. split; (reflexivity || discriminate).
  - vm_compute. split; (reflexivity || discriminate).
Defined.

(** ** What the text depends on *)





(** X8.  The glyph of a cell depends on the pixels of its own block
    only: two readable frames of the same size that agree on the block of
    a cell give that cell the same index, whatever they hold elsewhere. *)
Theorem glyph_depends_on_its_block_only
  (A B : HTMLCanvasElement) (options : ASCIIRenderOptions)
  (ctxA ctxB : CanvasRenderingContext2D) (x y : Z) :
  getContext A = Some ctxA -> getContext B = Some ctxB ->
  width A = width B -> height A = height B ->
  0 < orDefault (charWidth options) 10 ->
  0 < orDefault (charHeight options) 14 ->
  0 <= x < sampleWidth A options ->
  0 <= y < sampleHeight A options ->
  (forall u v, inBlock A options x y u v -> bitmap A u v = bitmap B u v) ->
  cellIndex ctxA A options x y = cellIndex ctxB B options x y.
Proof.
  intros HA HB Hw Hh Hcw Hch Hx Hy Hsame.
  assert (sampleWidth B options = sampleWidth A options) as Ecols
    by (unfold sampleWidth; now rewrite Hw).
  assert (sampleHeight B options = sampleHeight A options) as Erows
    by (unfold sampleHeight; now rewrite Hh).
  rewrite (cellIndex_normal A options ctxA HA Hcw Hch) by assumption.
  rewrite (cellIndex_normal B options ctxB HB Hcw Hch)
    by (rewrite ?Ecols, ?Erows; assumption).
  unfold inBlock in Hsame.
  unfold cellBrightness. rewrite Ecols, Erows, <- Hw, <- Hh.
  set (px := pixelAnchor x (Z.of_N (width A)) (sampleWidth A options)) in *.
  set (py := pixelAnchor y (Z.of_N (height A)) (sampleHeight A options)) in *.
  assert (framePixels A px py (orDefault (charWidth options) 10)
            (orDefault (charHeight options) 14)
          = framePixels B px py (orDefault (charWidth options) 10)
              (orDefault (charHeight options) 14)) as ->;
    [|reflexivity].
  unfold framePixels.
  apply flat_map_ext_in. intros dy Hdy. apply in_range in Hdy.
  apply map_ext_in. intros dx Hdx. apply in_range in Hdx.
  apply Hsame. lia.
Qed.

Lemma glyph_depends_on_its_block_only_witness :
  let A := solidCanvas 640 480 leafGreen in
  let B :=
    mkCanvas 640 480
      (fun u v => if (u <? 100) && (v <? 100) then leafGreen else opaqueWhite)
      true in
  cellIndex (mkContext 640 480 (bitmap A)) A defaultOptions 3 2
  = cellIndex (mkContext 640 480 (bitmap B)) B defaultOptions 3 2.
Proof.
  apply glyph_depends_on_its_block_only.
  - reflexivity.
  - reflexivity.
  - reflexivity.
  - reflexivity.
  - reflexivity.
  - reflexivity.
  - vm_compute. split; (reflexivity || discriminate).
  - vm_compute. split; (reflexivity || discriminate).
  - intros u v Hin.
    assert ((30 <= u < 30 + 10) /\ (28 <= v < 28 + 14)) as [Hu Hv]
      by exact Hin.
    cbn [bitmap solidCanvas].
    destruct (u <? 100) eqn:Eu; [|apply Z.ltb_ge in Eu; lia].
    destruct (v <? 100) eqn:Ev; [|apply Z.ltb_ge in Ev; lia].
    reflexivity.
Defined.

(** ** Frames of one colour *)

(** X9.  A frame of one colour, whatever the colour and its opacity,
    renders as a block of one glyph of the ramp: every cell gets the same
    index. *)
Theorem one_colour_frame_gives_one_glyph
  (canvas : HTMLCanvasElement) (options : ASCIIRenderOptions) (p : RGBA) :
  getContext canvas <> None ->
  0 < orDefault (charWidth options) 10 ->
  0 < orDefault (charHeight options) 14 ->
  storable canvas ->
  uniformFrame canvas p ->
  exists g,
    rampGlyph g /\
    renderASCII canvas options
    = Normal (solidBlock g (sampleWidth canvas options)
                (sampleHeight canvas options)).
Proof.
  intros Hctx Hcw Hch Hs Hu.
  destruct (getContext_some canvas Hctx) as [ctx Hsome].
  destruct (Z_lt_le_dec 0 (sampleWidth canvas options)) as [Hcols|Hcols];
    [destruct (Z_lt_le_dec 0 (sampleHeight canvas options)) as [Hrows|Hrows]|].
  - set (b := blockBrightness
                (repeat p (Z.to_nat (orDefault (charHeight options) 14)
                           * Z.to_nat (orDefault (charWidth options) 10)))
                (orDefault (charWidth options) 10)
                (orDefault (charHeight options) 14)).
    assert (0 <= b <= 1)%Q as Hb.
    { unfold b. apply blockBrightness_bounds;
        [exact Hcw | exact Hch | | apply repeat_length].
      apply (cell_area canvas options Hcw Hch 0 0 Hs); lia. }
    destruct (charAt_ramp (charIndexOf b) (charIndexOf_bounds b Hb))
      as [g [Hg _]].
    exists g. split; [exact (charAt_rampGlyph _ _ Hg)|].
    apply (renderASCII_uniform canvas options ctx Hsome Hcw Hch
             (charIndexOf b) g); [|exact Hg].
    intros x y Hx Hy.
    now rewrite (cellBrightness_uniform canvas options p Hcw Hch Hu x y Hx Hy).
  - exists "@"%char. split; [now left|].
    apply (renderASCII_uniform canvas options ctx Hsome Hcw Hch 0);
      [|reflexivity].
    intros x y Hx Hy. lia.
  - exists "@"%char. split; [now left|].
    apply (renderASCII_uniform canvas options ctx Hsome Hcw Hch 0);
      [|reflexivity].
    intros x y Hx Hy. lia.
Qed.

Lemma one_colour_frame_gives_one_glyph_witness :
  let canvas := solidCanvas 640 480 leafGreen in
  exists g,
    rampGlyph g /\
    renderASCII canvas defaultOptions
    = Normal (solidBlock g (sampleWidth canvas defaultOptions)
                (sampleHeight canvas defaultOptions)).
Proof.
  apply (one_colour_frame_gives_one_glyph
           (solidCanvas 640 480 leafGreen) defaultOptions leafGreen).
  - discriminate.
  - reflexivity.
  - reflexivity.
  - vm_compute. reflexivity.
  - intros x y _ _. reflexivity.
Defined.

(** ** Splitting a text into lines *)

Lemma splitLines_cons (c : ascii) (s : string) :
  c <> newline ->
  exists l ls, splitLines s = l :: ls /\
               splitLines (String c s) = String c l :: ls.
Proof.
  intros Hc. simpl.
  destruct (Ascii.eqb_spec c newline) as [E|_]; [contradiction|].
  destruct s as [|a s]; simpl.
  - now exists EmptyString, [].
  - destruct (Ascii.eqb a newline).
    + now exists EmptyString, (splitLines s).
    + destruct (splitLines s) as [|l ls]; [now exists (String a EmptyString), []|].
      now exists (String a l), ls.
Qed.

Lemma length_splitLines (s : string) :
  List.length (splitLines s) = S (countChar newline s).
Proof.
  induction s as [|c s IH]; [reflexivity|].
  destruct (Ascii.eqb_spec c newline) as [->|Hc].
  - simpl. now rewrite IH.
  - destruct (splitLines_cons c s Hc) as (l & ls & E1 & E2).
    rewrite E2. rewrite E1 in IH. simpl in *.
    destruct (Ascii.eqb_spec c newline) as [E|_]; [contradiction|].
    exact IH.
Qed.

Lemma splitLines_no_newline (s : string) :
  Forall (fun l => countChar newline l = O) (splitLines s).
Proof.
  induction s as [|c s IH]; [repeat constructor|].
  destruct (Ascii.eqb_spec c newline) as [->|Hc].
  - simpl. constructor; [reflexivity | exact IH].
  - destruct (splitLines_cons c s Hc) as (l & ls & E1 & E2).
    rewrite E2. rewrite E1 in IH. inversion IH as [|? ? Hl Hls]; subst.
    constructor; [|exact Hls]. simpl.
    destruct (Ascii.eqb_spec c newline) as [E|_]; [contradiction|].
    exact Hl.
Qed.

(** Joining the pieces gives the text back, newline-terminated. *)
Lemma unlines_splitLines (s : string) :
  unlines (splitLines s) = (s ++ String newline EmptyString)%string.
Proof.
  induction s as [|c s IH]; [reflexivity|].
  destruct (Ascii.eqb_spec c newline) as [->|Hc].
  - simpl. now rewrite IH.
  - destruct (splitLines_cons c s Hc) as (l & ls & E1 & E2).
    rewrite E2. rewrite E1 in IH. simpl in *. now rewrite IH.
Qed.

(** ** The texts drawn line by line *)

Lemma map_fst_textCalls_fillLines (x y0 lineHeight i : Z)
  (lines : list string) :
  map fst (textCalls (fillLines x y0 lineHeight i lines)) = lines.
Proof.
  revert i. induction lines as [|l lines IH]; intros i; simpl;
    [reflexivity | now rewrite IH].
Qed.

Lemma nth_error_textCalls_fillLines (x y0 lineHeight i : Z)
  (lines : list string) (k : nat) :
  nth_error (textCalls (fillLines x y0 lineHeight i lines)) k
  = option_map (fun l => (l, (x, y0 + (i + Z.of_nat k) * lineHeight)))
      (nth_error lines k).
Proof.
  revert i k. induction lines as [|l lines IH]; intros i k.
  - now destruct k.
  - destruct k as [|k].
    + simpl. now rewrite Z.add_0_r.
    + cbn [fillLines textCalls nth_error]. rewrite IH.
      now replace (i + 1 + Z.of_nat k) with (i + Z.of_nat (S k)) by lia.
Qed.

Lemma length_textCalls_fillLines (x y0 lineHeight i : Z)
  (lines : list string) :
  List.length (textCalls (fillLines x y0 lineHeight i lines))
  = List.length lines.
Proof.
  rewrite <- (map_fst_textCalls_fillLines x y0 lineHeight i lines) at 2.
  now rewrite length_map.
Qed.

Lemma textCalls_drawASCIIToCanvas (asciiText : string)
  (canvas : HTMLCanvasElement) (fontSize : option Z)
  (textColor : option string) :
  getContext canvas <> None ->
  textCalls (drawASCIIToCanvas asciiText canvas fontSize textColor)
  = textCalls (fillLines 10 10 (orDefault fontSize 10 + 2) 0
                 (splitLines asciiText)).
Proof.
  intros Hctx. unfold drawASCIIToCanvas.
  destruct (getContext canvas); [reflexivity | congruence].
Qed.

(** X10.  [drawASCIIToCanvas] draws the text line by line and loses
    nothing: it makes one [fillText] call more than the text has newlines,
    no drawn piece contains a newline, the pieces joined by newlines are
    the text, and piece [k] is drawn at [(10, 10 + k * (fontSize + 2))]. *)
Theorem drawASCIIToCanvas_draws_every_line (asciiText : string)
  (canvas : HTMLCanvasElement) (fontSize : option Z)
  (textColor : option string) :
  getContext canvas <> None ->
  let drawn :=
    textCalls (drawASCIIToCanvas asciiText canvas fontSize textColor) in
  List.length drawn = S (countChar newline asciiText) /\
  Forall (fun t => countChar newline (fst t) = O) drawn /\
  unlines (map fst drawn) = (asciiText ++ String newline EmptyString)%string /\
  forall k t,
    nth_error drawn k = Some t ->
    snd t = (10, 10 + Z.of_nat k * (orDefault fontSize 10 + 2)).
Proof.
  intros Hctx drawn. unfold drawn.
  rewrite (textCalls_drawASCIIToCanvas _ _ _ _ Hctx).
  split; [|split; [|split]].
  - now rewrite length_textCalls_fillLines, length_splitLines.
  - pose proof (splitLines_no_newline asciiText) as HF.
    rewrite <- (map_fst_textCalls_fillLines 10 10
                  (orDefault fontSize 10 + 2) 0 (splitLines asciiText)) in HF.
    apply Forall_map in HF. exact HF.
  - rewrite map_fst_textCalls_fillLines. apply unlines_splitLines.
  - intros k t Hk. rewrite nth_error_textCalls_fillLines in Hk.
    destruct (nth_error (splitLines asciiText) k) as [l|]; [|discriminate].
    simpl in Hk. injection Hk as <-. reflexivity.
Qed.

Lemma drawASCIIToCanvas_draws_every_line_witness :
  let drawn :=
    textCalls (drawASCIIToCanvas "@@ #" (gradientCanvas 640 480)
                 (Some 12) None) in
  List.length drawn = S (countChar newline "@@ #") /\
  Forall (fun t => countChar newline (fst t) = O) drawn /\
  unlines (map fst drawn) = ("@@ #" ++ String newline EmptyString)%string /\
  forall k t,
    nth_error drawn k = Some t ->
    snd t = (10, 10 + Z.of_nat k * (orDefault (Some 12) 10 + 2)).
Proof.
  apply (drawASCIIToCanvas_draws_every_line "@@ #" (gradientCanvas 640 480)
           (Some 12) None).
  discriminate.
Defined.

(** ** Drawing the rendered block *)

Lemma nth_error_range (n k : Z) :
  0 <= k < n -> nth_error (range n) (Z.to_nat k) = Some k.
Proof.
  intros Hk. unfold range.
  rewrite nth_error_map, nth_error_seq.
  destruct (Nat.ltb_spec (Z.to_nat k) (Z.to_nat n)) as [_|Hge]; [|lia].
  simpl. f_equal. lia.
Qed.

Lemma gridRows_no_newline (canvas : HTMLCanvasElement)
  (options : ASCIIRenderOptions) :
  storable canvas ->
  0 < orDefault (charWidth options) 10 ->
  0 < orDefault (charHeight options) 14 ->
  Forall (fun l => countChar newline l = O) (gridRows canvas options).
Proof.
  intros Hs Hcw Hch. unfold gridRows.
  apply Forall_forall. intros l Hl.
  apply in_map_iff in Hl. destruct Hl as [y [<- Hy]].
  apply in_range in Hy. unfold gridRow.
  apply countChar_string_of_list_ascii.
  apply Forall_forall. intros a Ha.
  apply in_map_iff in Ha. destruct Ha as [x [<- Hx]].
  apply in_range in Hx.
  destruct (cellGlyph_some canvas options Hcw Hch x y Hs Hx Hy)
    as [g [Hg Hnl]].
  rewrite Hg. exact Hnl.
Qed.

Lemma fillLines_rendered_block (canvas : HTMLCanvasElement)
  (options : ASCIIRenderOptions) (x y0 lineHeight : Z) :
  storable canvas ->
  0 < orDefault (charWidth options) 10 ->
  0 < orDefault (charHeight options) 14 ->
  0 <= sampleHeight canvas options ->
  drawsGrid
    (textCalls (fillLines x y0 lineHeight 0
                  (splitLines (unlines (gridRows canvas options)))))
    canvas options x y0 lineHeight.
Proof.
  intros Hs Hcw Hch Hrows.
  rewrite splitLines_unlines by now apply gridRows_no_newline.
  assert (List.length (gridRows canvas options)
          = Z.to_nat (sampleHeight canvas options)) as Hlen
    by (unfold gridRows; now rewrite length_map, length_range).
  unfold drawsGrid. split; [|split].
  - rewrite length_textCalls_fillLines, length_app, Hlen. simpl. lia.
  - intros k Hk. rewrite nth_error_textCalls_fillLines.
    rewrite nth_error_app1 by lia.
    unfold gridRows. rewrite nth_error_map, nth_error_range by exact Hk.
    simpl. now rewrite Z2Nat.id by lia.
  - rewrite nth_error_textCalls_fillLines.
    rewrite nth_error_app2 by lia.
    rewrite Hlen, Nat.sub_diag. simpl. now rewrite Z2Nat.id by lia.
Qed.

(** X11.  [drawASCIIToCanvas] applied to the text of [renderASCII] puts
    row [k] of the grid at [(10, 10 + k * (fontSize + 2))], for every row,
    and ends with one more [fillText] call, of the empty string, below the
    last row (the piece after the final newline). *)
Theorem drawASCIIToCanvas_of_rendered_block
  (canvas output : HTMLCanvasElement) (options : ASCIIRenderOptions)
  (fontSize : option Z) (textColor : option string) (text : string) :
  getContext canvas <> None ->
  getContext output <> None ->
  validOptions options ->
  storable canvas ->
  renderASCII canvas options = Normal text ->
  drawsGrid (textCalls (drawASCIIToCanvas text output fontSize textColor))
    canvas options 10 10 (orDefault fontSize 10 + 2).
Proof.
  intros Hctx Hout Hv Hs Hrun.
  destruct (getContext_some canvas Hctx) as [ctx Hsome].
  destruct (validOptions_cell options Hv) as [Hcw Hch].
  destruct (sampleHeight_valid canvas options Hv) as [_ Hrows].
  rewrite (renderASCII_rows canvas options ctx Hsome Hcw Hch Hs) in Hrun.
  injection Hrun as <-.
  rewrite (textCalls_drawASCIIToCanvas _ _ _ _ Hout).
  now apply fillLines_rendered_block.
Qed.

Lemma drawASCIIToCanvas_of_rendered_block_witness :
  drawsGrid
    (textCalls (drawASCIIToCanvas (solidBlock "@" 2 2)
                  (gradientCanvas 640 480) None None))
    (solidCanvas 2 2 opaqueBlack)
    (mkOptions (Some 1) (Some 1) (Some 3) (Some 3)) 10 10
    (orDefault None 10 + 2).
Proof.
  apply (drawASCIIToCanvas_of_rendered_block (solidCanvas 2 2 opaqueBlack)).
  - discriminate.
  - discriminate.
  - vm_compute. repeat split.
  - vm_compute. reflexivity.
  - vm_compute. reflexivity.
Defined.

(** ** getOptimalSettings *)

Lemma scale_nonneg (m : Z) : 0 <= m -> (0 <= inject_Z m [/] 1000)%Q.
Proof.
  intros Hm. apply div_nonneg; [|reflexivity].
  change 0%Q with (inject_Z 0). now rewrite <- Zle_Qle.
Qed.

Lemma scaled_floor_mono (k m m' : Z) :
  0 <= k -> 0 <= m <= m' ->
  Qfloor (inject_Z k [*] (inject_Z m [/] 1000))
  <= Qfloor (inject_Z k [*] (inject_Z m' [/] 1000)).
Proof.
  intros Hk [Hm Hmm]. apply Qfloor_resp_le.
  apply mul_mono.
  - change 0%Q with (inject_Z 0). now rewrite <- Zle_Qle.
  - apply Qle_refl.
  - now apply scale_nonneg.
  - apply div_mono; [| |reflexivity].
    + change 0%Q with (inject_Z 0). now rewrite <- Zle_Qle.
    + now rewrite <- Zle_Qle.
Qed.

(** X12.  [getOptimalSettings] is monotone in the canvas size: a canvas
    at least as wide and as high never gets a smaller cell or a smaller
    limit; and the cell is never smaller than 8 by 12, whatever the
    size. *)
Theorem getOptimalSettings_monotone (w h w' h' : Z) :
  0 <= w <= w' -> 0 <= h <= h' ->
  let s := getOptimalSettings w h in
  let s' := getOptimalSettings w' h' in
  8 <= orDefault (charWidth s) 10 <= orDefault (charWidth s') 10 /\
  12 <= orDefault (charHeight s) 14 <= orDefault (charHeight s') 14 /\
  0 <= orDefault (maxWidth s) 100 <= orDefault (maxWidth s') 100 /\
  0 <= orDefault (maxHeight s) 60 <= orDefault (maxHeight s') 60.
Proof.
  intros Hw Hh. cbn [getOptimalSettings charWidth charHeight maxWidth maxHeight
                      orDefault].
  pose proof (scaled_floor_mono 10 (Z.max w h) (Z.max w' h')
                ltac:(lia) ltac:(lia)) as H10.
  pose proof (scaled_floor_mono 14 (Z.max w h) (Z.max w' h')
                ltac:(lia) ltac:(lia)) as H14.
  change (inject_Z 10) with 10%Q in H10.
  change (inject_Z 14) with 14%Q in H14.
  pose proof (Z.div_le_mono w w' 12 ltac:(lia) ltac:(lia)).
  pose proof (Z.div_le_mono h h' 16 ltac:(lia) ltac:(lia)).
  pose proof (Z.div_pos w 12 ltac:(lia) ltac:(lia)).
  pose proof (Z.div_pos h 16 ltac:(lia) ltac:(lia)).
  repeat split; lia.
Qed.

Lemma getOptimalSettings_monotone_witness :
  let s := getOptimalSettings 640 480 in
  let s' := getOptimalSettings 1920 1080 in
  8 <= orDefault (charWidth s) 10 <= orDefault (charWidth s') 10 /\
  12 <= orDefault (charHeight s) 14 <= orDefault (charHeight s') 14 /\
  0 <= orDefault (maxWidth s) 100 <= orDefault (maxWidth s') 100 /\
  0 <= orDefault (maxHeight s) 60 <= orDefault (maxHeight s') 60.
Proof.
  apply (getOptimalSettings_monotone 640 480 1920 1080); lia.
Defined.

(** ** The ASCII branch of processFrame *)

Lemma asciiFrame_runs
  (canvas output : HTMLCanvasElement) (w0 h0 : Z)
  (colorMode : ColorMode) (fontSize : Z) :
  getContext canvas <> None ->
  storable canvas ->
  0 <= w0 -> 0 <= h0 ->
  exists calls,
    asciiFrame canvas output (getOptimalSettings w0 h0) colorMode fontSize
    = Normal calls /\
    drawsGrid (textCalls calls) canvas (getOptimalSettings w0 h0)
      8 8 (fontSize + 1).
Proof.
  intros Hctx Hs Hw0 Hh0.
  destruct (getContext_some canvas Hctx) as [ctx Hsome].
  set (settings := getOptimalSettings w0 h0).
  assert (0 < orDefault (charWidth settings) 10) as Hcw
    by (unfold settings; cbn [getOptimalSettings charWidth orDefault]; lia).
  assert (0 < orDefault (charHeight settings) 14) as Hch
    by (unfold settings; cbn [getOptimalSettings charHeight orDefault]; lia).
  assert (0 <= sampleHeight canvas settings) as Hrows.
  { unfold sampleHeight. apply sampleSize_nonneg; [exact Hch | lia |].
    unfold settings. cbn [getOptimalSettings maxHeight orDefault].
    apply Z.div_pos; lia. }
  unfold asciiFrame.
  rewrite (renderASCII_rows canvas settings ctx Hsome Hcw Hch Hs).
  cbn [bind]. eexists. split; [reflexivity|].
  cbn [app textCalls].
  now apply fillLines_rendered_block.
Qed.

(** X13.  The ASCII branch of [processFrame] never throws with settings
    made by [getOptimalSettings], also when they were memoized for another
    canvas size: the cell is at least 8 by 12, so every block is read.
    It draws row [k] of the grid at [(8, 8 + k * (fontSize + 1))] and one
    empty piece below the last row. *)
Theorem asciiFrame_with_optimal_settings
  (canvas output : HTMLCanvasElement) (w0 h0 : Z)
  (colorMode : ColorMode) (fontSize : Z) :
  getContext canvas <> None ->
  storable canvas ->
  0 <= w0 -> 0 <= h0 ->
  exists calls,
    asciiFrame canvas output (getOptimalSettings w0 h0) colorMode fontSize
    = Normal calls /\
    drawsGrid (textCalls calls) canvas (getOptimalSettings w0 h0)
      8 8 (fontSize + 1).
Proof.
  intros Hctx Hs Hw0 Hh0.
  exact (asciiFrame_runs canvas output w0 h0 colorMode fontSize
           Hctx Hs Hw0 Hh0).
Qed.

Lemma asciiFrame_with_optimal_settings_witness :
  exists calls,
    asciiFrame (gradientCanvas 640 480) (gradientCanvas 640 480)
      (getOptimalSettings 640 480) Green 11
    = Normal calls /\
    drawsGrid (textCalls calls) (gradientCanvas 640 480)
      (getOptimalSettings 640 480) 8 8 (11 + 1).
Proof.
  apply (asciiFrame_with_optimal_settings
           (gradientCanvas 640 480) (gradientCanvas 640 480) 640 480 Green 11).
  - discriminate.
  - vm_compute. reflexivity.
  - lia.
  - lia.
Defined.

(** ** Options from the font metrics *)

Lemma round_half_le (q : Q) (n : Z) : (q <= inject_Z n)%Q -> mathRound q <= n.
Proof.
  intros Hq. unfold mathRound.
  pose proof (Qfloor_le (q + (1 # 2))) as Hf.
  assert (inject_Z (Qfloor (q + (1 # 2))) < inject_Z (n + 1))%Q as Hlt.
  { rewrite inject_Z_plus. change (inject_Z 1) with 1%Q. lra. }
  rewrite <- Zlt_Qlt in Hlt. lia.
Qed.

Lemma div_le_numerator (a b : Z) :
  0 <= a < 2 ^ 53 -> 1 <= b -> (inject_Z a [/] inject_Z b <= inject_Z a)%Q.
Proof.
  intros Ha Hb. rewrite <- (round_integer a Ha) at 2.
  assert (0 <= inject_Z a)%Q as Ha0
    by (change 0%Q with (inject_Z 0); rewrite <- Zle_Qle; lia).
  assert (1 <= inject_Z b)%Q as Hb1
    by (change 1%Q with (inject_Z 1); rewrite <- Zle_Qle; lia).
  unfold Number.div. apply round_mono.
  - apply Qle_shift_div_l; lra.
  - apply Qle_shift_div_r; [lra|]. nra.
Qed.

Lemma metric_cell_fits (extent n : Z) :
  1 <= extent < 2 ^ 53 -> 1 <= n ->
  1 <= Z.max 1 (mathRound (inject_Z extent [/] inject_Z n)) <= extent.
Proof.
  intros He Hn. split; [lia|].
  pose proof (round_half_le _ _ (div_le_numerator extent n ltac:(lia) Hn)).
  lia.
Qed.

Lemma metricOptions_valid
  (canvas output : HTMLCanvasElement) (fontSize : Z) (actualCharWidth : Q) :
  storable canvas ->
  1 <= Z.of_N (width canvas) -> 1 <= Z.of_N (height canvas) ->
  (0 < actualCharWidth)%Q -> 0 <= fontSize ->
  exists options,
    metricOptions canvas output fontSize actualCharWidth = Some options /\
    validOptions options /\
    orDefault (charWidth options) 10 <= Z.of_N (width canvas) /\
    orDefault (charHeight options) 14 <= Z.of_N (height canvas) /\
    orDefault (maxHeight options) 60
    = Z.max 1 (Qfloor (inject_Z (Z.of_N (height output) - 16)
                       [/] inject_Z (safeFontSize fontSize + 1))).
Proof.
  intros Hs Hw Hh Hacw Hfs.
  unfold metricOptions.
  assert (Qeq_bool actualCharWidth 0 = false) as ->.
  { destruct (Qeq_bool actualCharWidth 0) eqn:E; [|reflexivity].
    apply Qeq_bool_iff in E. lra. }
  assert ((safeFontSize fontSize + 1 =? 0) = false) as ->.
  { apply Z.eqb_neq. unfold safeFontSize.
    destruct (fontSize =? 0) eqn:E; [lia|]. lia. }
  cbn [orb].
  set (cols := Z.max 1 (Qfloor (inject_Z (Z.of_N (width output) - 8 * 2)
                                [/] actualCharWidth))).
  set (rows := Z.max 1 (Qfloor (inject_Z (Z.of_N (height output) - 8 * 2)
                                [/] inject_Z (safeFontSize fontSize + 1)))).
  assert (1 <= cols) as Hcols by (unfold cols; lia).
  assert (1 <= rows) as Hrows by (unfold rows; lia).
  unfold storable in Hs.
  assert (Z.of_N (width canvas) < 2 ^ 53) as HW
    by (change (2 ^ 53) with (2 ^ 45 * 256); nia).
  assert (Z.of_N (height canvas) < 2 ^ 53) as HH
    by (change (2 ^ 53) with (2 ^ 45 * 256); nia).
  pose proof (metric_cell_fits (Z.of_N (width canvas)) cols
                ltac:(lia) Hcols) as Hcw.
  pose proof (metric_cell_fits (Z.of_N (height canvas)) rows
                ltac:(lia) Hrows) as Hch.
  eexists. split; [reflexivity|].
  unfold validOptions.
  cbn [charWidth charHeight maxWidth maxHeight orDefault].
  repeat split; try lia.
Qed.

(** X14.  The options the later [processFrame] derives from the font
    metrics never give an empty grid: for a frame of at least one pixel, a
    positive glyph width and a font size that is not negative, all four
    fields are at least 1, the grid has at least one column and one row,
    and [renderASCII] returns a text that is not empty. *)
Theorem metricOptions_grid_never_empty
  (canvas output : HTMLCanvasElement) (fontSize : Z) (actualCharWidth : Q) :
  getContext canvas <> None ->
  storable canvas ->
  1 <= Z.of_N (width canvas) -> 1 <= Z.of_N (height canvas) ->
  (0 < actualCharWidth)%Q -> 0 <= fontSize ->
  exists options,
    metricOptions canvas output fontSize actualCharWidth = Some options /\
    validOptions options /\
    1 <= sampleWidth canvas options <= orDefault (maxWidth options) 100 /\
    1 <= sampleHeight canvas options <= orDefault (maxHeight options) 60 /\
    exists text,
      renderASCII canvas options = Normal text /\ text <> EmptyString.
Proof.
  intros Hctx Hs Hw Hh Hacw Hfs.
  destruct (getContext_some canvas Hctx) as [ctx Hsome].
  destruct (metricOptions_valid canvas output fontSize actualCharWidth
              Hs Hw Hh Hacw Hfs) as (options & Hopt & Hv & Hcw & Hch & _).
  exists options. split; [exact Hopt|].
  destruct (validOptions_cell options Hv) as [Hcw0 Hch0].
  destruct (sampleWidth_valid canvas options Hv) as [Ew _].
  destruct (sampleHeight_valid canvas options Hv) as [Eh _].
  destruct Hv as (Hv1 & Hv2 & Hmw & Hmh).
  assert (1 <= sampleWidth canvas options) as Hsw.
  { unfold sampleWidth. apply sampleSize_ge_1; [exact Hcw0 | lia]. }
  assert (1 <= sampleHeight canvas options) as Hsh.
  { unfold sampleHeight. apply sampleSize_ge_1; [exact Hch0 | lia]. }
  split; [repeat split; assumption|].
  split; [lia|]. split; [lia|].
  exists (unlines (gridRows canvas options)). split.
  - apply (renderASCII_rows canvas options ctx Hsome Hcw0 Hch0). exact Hs.
  - intros Hempty. apply unlines_empty in Hempty.
    apply (f_equal (@List.length string)) in Hempty.
    unfold gridRows in Hempty.
    rewrite length_map, length_range in Hempty. simpl in Hempty. lia.
Qed.

Lemma metricOptions_grid_never_empty_witness :
  exists options,
    metricOptions tinyCanvas (gradientCanvas 640 480) 11 (66 # 10)
    = Some options /\
    validOptions options /\
    1 <= sampleWidth tinyCanvas options <= orDefault (maxWidth options) 100 /\
    1 <= sampleHeight tinyCanvas options <= orDefault (maxHeight options) 60 /\
    exists text,
      renderASCII tinyCanvas options = Normal text /\ text <> EmptyString.
Proof.
  apply (metricOptions_grid_never_empty tinyCanvas (gradientCanvas 640 480)
           11 (66 # 10)).
  - discriminate.
  - vm_compute. reflexivity.
  - vm_compute. discriminate.
  - vm_compute. discriminate.
  - reflexivity.
  - lia.
Defined.

(** X15.  In the ASCII branch of the later [processFrame] every row of
    the grid is drawn inside the output canvas: when the output canvas is
    high enough for one line between the paddings, row [k] is drawn at
    [(8, 8 + k * lineHeight)] and its line ends at least 8 pixels above
    the lower edge, because the grid has at most
    [floor((height - 16) / lineHeight)] rows. *)
Theorem metricFrame_rows_fit_the_output
  (canvas output : HTMLCanvasElement) (colorMode : ColorMode)
  (fontSize : Z) (actualCharWidth : Q) :
  getContext canvas <> None ->
  storable canvas ->
  1 <= Z.of_N (width canvas) -> 1 <= Z.of_N (height canvas) ->
  (0 < actualCharWidth)%Q -> 0 <= fontSize ->
  Z.of_N (height output) < 2 ^ 32 ->
  safeFontSize fontSize + 1 <= Z.of_N (height output) - 16 ->
  exists options calls,
    metricOptions canvas output fontSize actualCharWidth = Some options /\
    metricFrame canvas output colorMode fontSize actualCharWidth
    = Some (Normal calls) /\
    drawsGrid (textCalls calls) canvas options 8 8 (safeFontSize fontSize + 1) /\
    forall k,
      0 <= k < sampleHeight canvas options ->
      8 <= 8 + k * (safeFontSize fontSize + 1) /\
      8 + k * (safeFontSize fontSize + 1) + (safeFontSize fontSize + 1)
      <= Z.of_N (height output) - 8.
Proof.
  intros Hctx Hs Hw Hh Hacw Hfs Hout Hfit.
  destruct (getContext_some canvas Hctx) as [ctx Hsome].
  destruct (metricOptions_valid canvas output fontSize actualCharWidth
              Hs Hw Hh Hacw Hfs) as (options & Hopt & Hv & Hcw & Hch & Hrows).
  assert (0 < safeFontSize fontSize + 1) as Hlh.
  { unfold safeFontSize. destruct (fontSize =? 0); lia. }
  set (lineHeight := safeFontSize fontSize + 1) in *.
  assert (0 <= Z.of_N (height output) - 16 < 2 ^ 53) as Hnum.
  { split; [lia|]. apply Z.lt_trans with (2 ^ 32); [lia | reflexivity]. }
  rewrite (floor_div_integer _ _ Hnum Hlh) in Hrows.
  destruct (validOptions_cell options Hv) as [Hcw0 Hch0].
  destruct (sampleHeight_valid canvas options Hv) as [Eh Hh0].
  exists options. eexists. split; [exact Hopt|].
  split; [|split].
  - unfold metricFrame. rewrite Hopt.
    rewrite (renderASCII_rows canvas options ctx Hsome Hcw0 Hch0 Hs).
    cbn [bind]. reflexivity.
  - cbn [app textCalls].
    now apply fillLines_rendered_block.
  - intros k Hk.
    pose proof (Z.mul_div_le (Z.of_N (height output) - 16) lineHeight Hlh)
      as Hmul.
    assert (1 <= (Z.of_N (height output) - 16) / lineHeight) as Hq
      by (apply Z.div_le_lower_bound; lia).
    assert (sampleHeight canvas options
            <= (Z.of_N (height output) - 16) / lineHeight) as Hle by lia.
    split; [nia|]. nia.
Qed.

Lemma metricFrame_rows_fit_the_output_witness :
  exists options calls,
    metricOptions (gradientCanvas 640 480) (gradientCanvas 640 480) 11
      (66 # 10)
    = Some options /\
    metricFrame (gradientCanvas 640 480) (gradientCanvas 640 480) Green 11
      (66 # 10)
    = Some (Normal calls) /\
    drawsGrid (textCalls calls) (gradientCanvas 640 480) options 8 8
      (safeFontSize 11 + 1) /\
    forall k,
      0 <= k < sampleHeight (gradientCanvas 640 480) options ->
      8 <= 8 + k * (safeFontSize 11 + 1) /\
      8 + k * (safeFontSize 11 + 1) + (safeFontSize 11 + 1)
      <= Z.of_N (height (gradientCanvas 640 480)) - 8.
Proof.
  apply (metricFrame_rows_fit_the_output
           (gradientCanvas 640 480) (gradientCanvas 640 480) Green 11
           (66 # 10)).
  - discriminate.
  - vm_compute. reflexivity.
  - vm_compute. discriminate.
  - vm_compute. discriminate.
  - reflexivity.
  - lia.
  - vm_compute. reflexivity.
  - vm_compute. discriminate.
Defined.

(** ** Scheduling the next frame *)

(** X16.  While [enabled] holds, every call of [processFrame] ends by
    scheduling the next one, whichever guard returns early and whether or
    not the draws fail: the only exception that could escape, the one of
    [renderASCII], does not occur with settings that are [null] or made
    by [getOptimalSettings].  When [enabled] is false no frame is
    scheduled. *)
Theorem processFrame_keeps_the_loop_running (g : FrameGuards)
  (canvas output : HTMLCanvasElement) (asciiMode : bool)
  (settings : option ASCIIRenderOptions) (colorMode : ColorMode)
  (fontSize : Z) :
  storable canvas ->
  settings = None
  \/ (exists w0 h0, 0 <= w0 /\ 0 <= h0 /\
                    settings = Some (getOptimalSettings w0 h0)) ->
  schedulesNext g canvas output asciiMode settings colorMode fontSize
  = enabled g.
Proof.
  intros Hs Hsettings. unfold schedulesNext.
  destruct (enabled g); cbn [negb orb]; [|reflexivity].
  destruct (refsMounted g); cbn [negb]; [|reflexivity].
  destruct (context2d canvas) eqn:Hctx; cbn [negb orb]; [|reflexivity].
  destruct (context2d output); cbn [negb]; [|reflexivity].
  destruct (haveEnoughData g); cbn [negb]; [|reflexivity].
  destruct (frameDrawn g); cbn [negb]; [|reflexivity].
  destruct asciiMode; [|now destruct (outputFrameDrawn g)].
  destruct Hsettings as [-> | (w0 & h0 & Hw0 & Hh0 & ->)];
    [now destruct (outputFrameDrawn g)|].
  assert (getContext canvas <> None) as Hsome
    by (unfold getContext; rewrite Hctx; discriminate).
  destruct (asciiFrame_runs canvas output w0 h0 colorMode fontSize
              Hsome Hs Hw0 Hh0) as (calls & -> & _).
  reflexivity.
Qed.

Lemma processFrame_keeps_the_loop_running_witness :
  schedulesNext (mkGuards true true true true false)
    (gradientCanvas 640 480) (gradientCanvas 640 480) true
    (Some (getOptimalSettings 640 480)) Cyan 12
  = enabled (mkGuards true true true true false).
Proof.
  apply processFrame_keeps_the_loop_running.
  - vm_compute. reflexivity.
  - right. exists 640, 480. repeat split; lia.
Defined.

(** * Further properties of the frame loop *)

Lemma processFrame_invariant (s : LoopState) (t : Tick) :
  0 <= frameCount s < detectionInterval /\
  faceDetected s = faceDetection s ->
  0 <= frameCount (processFrame s t) < detectionInterval /\
  faceDetected (processFrame s t) = faceDetection (processFrame s t).
Proof.
  intros [Hcount Hface]. unfold processFrame, detectionInterval in *.
  destruct (surfacesReady t); simpl; [|auto].
  destruct (asciiBranch t); simpl; [auto|].
  destruct (outputDrawn t); simpl; [|auto].
  destruct (10 <=? frameCount s + 1) eqn:E.
  - destruct (isLoading t); [simpl; split; [lia | exact Hface]|].
    destruct (detections t); simpl; split; (lia || reflexivity || exact Hface).
  - apply Z.leb_gt in E.
    destruct (faceDetection s) eqn:F; simpl; split;
      (lia || reflexivity || congruence).
Qed.

(** X17.  In every state the loop reaches from its initial state, the
    frame counter lies in [0, 10), so the counter never runs away, and the
    indicator state [faceDetected] equals the stored result
    [faceDetectionRef]. *)
Theorem frame_counter_stays_below_interval (ticks : list Tick) :
  0 <= frameCount (run initial ticks) < detectionInterval /\
  faceDetected (run initial ticks) = faceDetection (run initial ticks).
Proof.
  unfold run.
  assert (0 <= frameCount initial < detectionInterval /\
          faceDetected initial = faceDetection initial) as Hinit
    by (unfold detectionInterval; simpl; split; [lia | reflexivity]).
  revert Hinit. generalize initial.
  induction ticks as [|t ticks IH]; intros s Hs; [exact Hs|].
  simpl. apply IH. now apply processFrame_invariant.
Qed.




(** X19.  While the models are loading the detector is never called and
    the stored detection result never changes, however many frames
    pass. *)
Theorem no_detection_while_loading (ticks : list Tick) (s : LoopState) :
  Forall (fun t => isLoading t = true) ticks ->
  detectorCalls (run s ticks) = detectorCalls s /\
  faceDetection (run s ticks) = faceDetection s.
Proof.
  intros Hall. revert s.
  induction Hall as [|t ticks Hl _ IH]; intros s; [split; reflexivity|].
  rewrite run_cons.
  destruct (IH (processFrame s t)) as [-> ->].
  unfold processFrame. rewrite Hl.
  destruct (surfacesReady t); simpl; [|auto].
  destruct (asciiBranch t); simpl; [auto|].
  destruct (outputDrawn t); simpl; [|auto].
  destruct (detectionInterval <=? frameCount s + 1); simpl; [auto|].
  destruct (faceDetection s); simpl; auto.
Qed.

Lemma no_detection_while_loading_witness :
  let ticks := repeat (mkTick true false true true (Some 1%nat)) 30 in
  detectorCalls (run initial ticks) = detectorCalls initial /\
  faceDetection (run initial ticks) = faceDetection initial.
Proof.
  apply no_detection_while_loading.
  apply Forall_forall. intros t Ht. apply repeat_spec in Ht. now subst t.
Defined.

(** X20.  In ASCII mode the throttle stands still: ticks that take the
    ASCII branch change neither the frame counter nor the detection state,
    and call no detector. *)
Theorem ascii_ticks_leave_the_throttle_alone
  (ticks : list Tick) (s : LoopState) :
  Forall (fun t => asciiBranch t = true) ticks ->
  run s ticks = s.
Proof.
  intros Hall. revert s.
  induction Hall as [|t ticks Ha _ IH]; intros s; [reflexivity|].
  rewrite run_cons, processFrame_other; [apply IH|].
  unfold videoTick. rewrite Ha. now rewrite andb_false_r.
Qed.

Lemma ascii_ticks_leave_the_throttle_alone_witness :
  run (mkLoop 7 true true 3)
    (repeat (mkTick true true true false (Some 1%nat)) 40)
  = mkLoop 7 true true 3.
Proof.
  apply ascii_ticks_leave_the_throttle_alone.
  apply Forall_forall. intros t Ht. apply repeat_spec in Ht. now subst t.
Defined.

Lemma processFrame_budget (s : LoopState) (t : Tick) :
  0 <= frameCount s < detectionInterval ->
  0 <= frameCount (processFrame s t) < detectionInterval /\
  detectionInterval * Z.of_nat (detectorCalls (processFrame s t))
  + frameCount (processFrame s t)
  <= detectionInterval * Z.of_nat (detectorCalls s) + frameCount s
     + (if videoTick t then 1 else 0).
Proof.
  intros Hcount. unfold processFrame, videoTick, detectionInterval in *.
  destruct (surfacesReady t); cbn [negb andb]; [|lia].
  destruct (asciiBranch t); cbn [negb andb]; [lia|].
  destruct (outputDrawn t); cbn [negb andb]; [|lia].
  destruct (10 <=? frameCount s + 1) eqn:E.
  - apply Z.leb_le in E.
    destruct (isLoading t); [cbn [frameCount detectorCalls]; lia|].
    destruct (detections t); cbn [frameCount detectorCalls]; lia.
  - apply Z.leb_gt in E.
    destruct (faceDetection s); cbn [frameCount detectorCalls]; lia.
Qed.

(** X21.  Whatever happens in the ticks (models loading or loaded,
    detections failing, ASCII mode switched on and off), the detector has
    been called at most once per 10 video-branch ticks since the loop
    started. *)
Theorem detector_calls_bounded_by_video_ticks (ticks : list Tick) :
  detectionInterval * Z.of_nat (detectorCalls (run initial ticks))
  <= Z.of_nat (videoCount ticks).
Proof.
  assert (forall (l : list Tick) (s : LoopState),
             0 <= frameCount s < detectionInterval ->
             detectionInterval * Z.of_nat (detectorCalls (run s l))
             + frameCount (run s l)
             <= detectionInterval * Z.of_nat (detectorCalls s) + frameCount s
                + Z.of_nat (videoCount l) /\
             0 <= frameCount (run s l)) as Hgen.
  { induction l as [|t l IH]; intros s Hs.
    - simpl. unfold videoCount. simpl. lia.
    - rewrite run_cons, videoCount_cons.
      destruct (processFrame_budget s t Hs) as [Hs' Hstep].
      destruct (IH (processFrame s t) Hs') as [Hrest Hpos].
      split; [|exact Hpos].
      revert Hstep. destruct (videoTick t); intros Hstep; lia. }
  destruct (Hgen ticks initial) as [Hb Hpos];
    [unfold detectionInterval; simpl; lia|].
  change (detectorCalls initial) with 0%nat in Hb.
  change (frameCount initial) with 0 in Hb. lia.
Qed.

Lemma processFrame_count (s : LoopState) (t : Tick) :
  0 <= frameCount s < detectionInterval ->
  frameCount (processFrame s t)
  = (frameCount s + (if videoTick t then 1 else 0)) mod detectionInterval.
Proof.
  intros Hcount. unfold processFrame, videoTick, detectionInterval in *.
  destruct (surfacesReady t); cbn [negb andb];
    [|rewrite Z.add_0_r, Z.mod_small by lia; reflexivity].
  destruct (asciiBranch t); cbn [negb andb];
    [rewrite Z.add_0_r, Z.mod_small by lia; reflexivity|].
  destruct (outputDrawn t); cbn [negb andb];
    [|rewrite Z.add_0_r, Z.mod_small by lia; reflexivity].
  destruct (10 <=? frameCount s + 1) eqn:E.
  - apply Z.leb_le in E.
    replace (frameCount s + 1) with 10 by lia.
    destruct (isLoading t); [reflexivity|].
    destruct (detections t); reflexivity.
  - apply Z.leb_gt in E. rewrite Z.mod_small by lia.
    destruct (faceDetection s); reflexivity.
Qed.

(** X22.  The frame counter counts the video-branch ticks modulo 10,
    whether the models are loaded or not and whatever the detector
    answers: after any run from the initial state it equals the number of
    video-branch ticks modulo 10. *)
Theorem frame_counter_counts_video_ticks_mod_10 (ticks : list Tick) :
  frameCount (run initial ticks)
  = Z.of_nat (videoCount ticks) mod detectionInterval.
Proof.
  assert (forall (l : list Tick) (s : LoopState),
             0 <= frameCount s < detectionInterval ->
             frameCount (run s l)
             = (frameCount s + Z.of_nat (videoCount l)) mod detectionInterval)
    as Hgen.
  { induction l as [|t l IH]; intros s Hs.
    - unfold videoCount. simpl. rewrite Z.add_0_r.
      now rewrite Z.mod_small by exact Hs.
    - rewrite run_cons, videoCount_cons.
      pose proof (processFrame_count s t Hs) as Hstep.
      assert (0 <= frameCount (processFrame s t) < detectionInterval) as Hs'.
      { rewrite Hstep. apply Z.mod_pos_bound. reflexivity. }
      rewrite (IH _ Hs'), Hstep.
      rewrite Zplus_mod_idemp_l. f_equal.
      destruct (videoTick t); lia. }
  rewrite (Hgen ticks initial) by (unfold detectionInterval; simpl; lia).
  reflexivity.
Qed.
